(** * LiveChatter: chat ingestion, buffering and summary dispatch

    A shallow embedding of [livechatter.py]: the stream-id extractor, the
    [Summarizer], the [MainWindow] handlers that own the message buffer, and
    the [ChatReader.run] ingestion loop, followed by the properties proved
    about them. *)

From Stdlib Require Import Ascii String.
From Stdlib Require Import List Sorted Bool Arith ZArith NArith QArith Lia Lqa.
Import ListNotations.

Close Scope Q_scope.
Open Scope list_scope.

(* ===================================================================== *)
(** * Python strings *)
(* ===================================================================== *)

(** A Python [str] is a sequence of Unicode code points. *)
Definition char := N.
Definition pystr := list char.

(** An ASCII literal of the source, as code points. *)
Definition str (s : string) : pystr :=
  map N_of_ascii (list_ascii_of_string s).
Arguments str s%_string : simpl never.

Definition in_range (lo hi c : char) : bool := ((lo <=? c) && (c <=? hi))%N.
Arguments in_range (lo hi c)%_N.

(** [str.isspace] on one code point (CPython's whitespace table). *)
Definition isspace (c : char) : bool :=
  (in_range 9 13 c || in_range 28 32 c || (c =? 133) || (c =? 160)
   || (c =? 5760) || in_range 8192 8202 c || (c =? 8232) || (c =? 8233)
   || (c =? 8239) || (c =? 8287) || (c =? 12288))%N.

Fixpoint lstrip (s : pystr) : pystr :=
  match s with
  | [] => []
  | c :: s' => if isspace c then lstrip s' else s
  end.

Definition rstrip (s : pystr) : pystr := rev (lstrip (rev s)).

(** [s.strip()] *)
Definition strip (s : pystr) : pystr := rstrip (lstrip s).

(** [str.lower] restricted to what the source needs it for: its uses are
    substring tests for ASCII words (["disabled" in emsg.lower()], and
    "reconnecting" and "connection lost" in [_on_error]), and the only
    code points outside A-Z whose lower-casing yields a letter of these
    words do not yield the words themselves, so folding A-Z decides the
    tests. *)
Definition lower_char (c : char) : char :=
  if in_range 65 90 c then (c + 32)%N else c.

Definition lower (s : pystr) : pystr := map lower_char s.

Fixpoint starts_with (p s : pystr) : bool :=
  match p, s with
  | [], _ => true
  | _ :: _, [] => false
  | c :: p', d :: s' => (c =? d)%N && starts_with p' s'
  end.

(** [p in s] for strings. *)
Fixpoint contains (p s : pystr) : bool :=
  starts_with p s ||
  match s with
  | [] => false
  | _ :: s' => contains p s'
  end.

(** [sep.join(parts)] *)
Fixpoint join (sep : pystr) (parts : list pystr) : pystr :=
  match parts with
  | [] => []
  | [p] => p
  | p :: rest => p ++ sep ++ join sep rest
  end.

(** [s.split(sep)] for a one-character separator; used to read a joined text
    back into its lines. *)
Fixpoint split_on (sep : char) (s : pystr) : list pystr :=
  match s with
  | [] => [[]]
  | c :: s' =>
      if (c =? sep)%N then [] :: split_on sep s'
      else match split_on sep s' with
           | [] => [[c]]
           | w :: ws => (c :: w) :: ws
           end
  end.

Definition newline : char := 10%N.

(* ===================================================================== *)
(** * Stream identifier extraction *)
(* ===================================================================== *)

(** The character class [[A-Za-z0-9_-]]. *)
Definition is_id_char (c : char) : bool :=
  (in_range 65 90 c || in_range 97 122 c || in_range 48 57 c
   || (c =? 95) || (c =? 45))%N.

(** [re.fullmatch(r"[A-Za-z0-9_-]{11}", s)] *)
Definition fullmatch_id (s : pystr) : bool :=
  (length s =? 11) && forallb is_id_char s.

(** The three URL patterns all have the shape literal prefix followed by the
    capture group [([A-Za-z0-9_-]{11})]; a pattern is kept as its literal
    prefix.  [match_at lit s] is a match of the pattern anchored at the
    start of [s], returning group 1. *)
Definition match_at (lit s : pystr) : option pystr :=
  if starts_with lit s then
    let g := firstn 11 (skipn (length lit) s) in
    if fullmatch_id g then Some g else None
  else None.

(** [re.search(p, s)]: the leftmost position where the pattern matches. *)
Fixpoint re_search (lit s : pystr) : option pystr :=
  match match_at lit s with
  | Some g => Some g
  | None =>
      match s with
      | [] => None
      | _ :: s' => re_search lit s'
      end
  end.

Definition url_patterns : list pystr :=
  [str "youtu.be/"; str "v="; str "live/"].

(** The [for p in [...]] loop: the first pattern that matches returns. *)
Fixpoint first_pattern (ps : list pystr) (s : pystr) : option pystr :=
  match ps with
  | [] => None
  | p :: ps' =>
      match re_search p s with
      | Some g => Some g
      | None => first_pattern ps' s
      end
  end.

Definition extract_youtube_video_id (url_or_id : pystr) : option pystr :=
  let s := strip url_or_id in
  if fullmatch_id s then Some s
  else first_pattern url_patterns s.

(** A match of a URL pattern somewhere in [s], with group 1 equal to [r]. *)
Definition occurs (lit s r : pystr) : Prop :=
  exists pre post, s = pre ++ lit ++ r ++ post /\ fullmatch_id r = true.

(* ===================================================================== *)
(** * Effects: exceptions, a trace of observable calls, explicit state *)
(* ===================================================================== *)

(** A raised [Exception]; [exn_text] is what [str(e)] or [{e}] prints. *)
Inductive exn := Exception (exn_text : pystr).

Definition exn_text (e : exn) : pystr := let 'Exception t := e in t.

Inductive result (A : Type) :=
| Ok (a : A)
| Raise (e : exn).
Arguments Ok {A} a.
Arguments Raise {A} e.

(** The message dictionary.  Both places that build one ([ChatReader.run],
    primary and fallback branch) set all five keys, so the defaults of the
    [msg.get] calls are never taken and a record holds the same data. *)
Record Message := {
  author : pystr;
  text : pystr;
  type : pystr;
  is_moderator : bool;
  is_verified : bool
}.

(** Calls that leave the program; [Summarize] records an entry into
    [Summarizer.summarize] with its argument. *)
Inductive Event :=
| PlaySound (name : pystr)
| ChatViewAppend (line : pystr)
| Speak (line : pystr)
| Summarize (batch : list Message)
| ProviderCall (api_key prompt : pystr)
| WarningBox (line : pystr)
| ReaderStart (video_id : pystr).

(** A computation over a state [S] that may raise and logs events. *)
Definition M (S A : Type) := S -> result A * S * list Event.

Definition ret {S A} (a : A) : M S A := fun s => (Ok a, s, []).

Definition bind {S A B} (m : M S A) (f : A -> M S B) : M S B :=
  fun s =>
    match m s with
    | (Ok a, s1, tr1) => let '(r, s2, tr2) := f a s1 in (r, s2, tr1 ++ tr2)
    | (Raise e, s1, tr1) => (Raise e, s1, tr1)
    end.

Definition emit {S} (ev : Event) : M S unit := fun s => (Ok tt, s, [ev]).
Definition get {S} : M S S := fun s => (Ok s, s, []).
Definition put {S} (s' : S) : M S unit := fun _ => (Ok tt, s', []).
Definition lift {S A} (r : result A) : M S A := fun s => (r, s, []).

(** [try: m  except Exception as e: h e] *)
Definition try_except {S A} (m : M S A) (h : exn -> M S A) : M S A :=
  fun s =>
    match m s with
    | (Ok a, s1, tr1) => (Ok a, s1, tr1)
    | (Raise e, s1, tr1) => let '(r, s2, tr2) := h e s1 in (r, s2, tr1 ++ tr2)
    end.

Declare Scope py_scope.
Delimit Scope py_scope with py.
Notation "x <- m ;; k" := (bind m (fun x => k))
  (at level 61, m at next level, right associativity) : py_scope.
Notation "m ;; k" := (bind m (fun _ => k))
  (at level 61, right associativity) : py_scope.
Open Scope py_scope.

(* ===================================================================== *)
(** * Summarizer *)
(* ===================================================================== *)

(** What [Summarizer] reads from outside itself: whether [import openai]
    succeeded, the configured key, and what the chat-completion request of
    this call does: it raises, or yields [response.choices[0].message.content]
    ([None] when the content is absent). *)
Record Env := {
  openai : bool;
  openai_api_key : pystr;
  completion : result (option pystr)
}.

Definition filler : pystr := str "It's been quiet. No new messages to summarize.".

Definition base_prompt : pystr :=
  str "You are a witty and humorous assistant summarizing a YouTube live stream chat. "
  ++ str "Your summary will be read out loud by a text-to-speech engine, so adopt a conversational and slightly comedic tone. "
  ++ str "Be concise and keep your summary to a few sentences.".

Definition quiet_prompt : pystr :=
  str "The chat is very quiet. Make a brief, funny comment about the silence, "
  ++ str "and then just read out the few messages that have appeared.".

Definition vibe_prompt : pystr :=
  str "The chat is active. Do not list every message. Instead, capture the main vibe. "
  ++ str "Identify the key topics being discussed, mention any highlights or funny moments, "
  ++ str "and give a general sense of the conversation.".

(** [f"{author}: {text}"] *)
Definition chat_line (m : Message) : pystr := author m ++ str ": " ++ text m.

Definition formatted_chat (messages : list Message) : pystr :=
  join [newline] (map chat_line messages).

Definition task_prompt (messages : list Message) : pystr :=
  if length messages <? 5 then quiet_prompt else vibe_prompt.

Definition messages_header : pystr := str "Here are the recent messages:".

Definition full_prompt (messages : list Message) : pystr :=
  base_prompt ++ [newline; newline] ++ task_prompt messages
  ++ [newline; newline] ++ messages_header ++ [newline]
  ++ formatted_chat messages.

Definition _summarize_with_openai {S} (env : Env) (prompt_text : pystr) : M S pystr :=
  if negb (openai env) then
    ret (str "(OpenAI library not installed. Please run: pip install openai)")
  else
    let api_key := openai_api_key env in
    match api_key with
    | [] => ret (str "(OpenAI API key is not set in Options)")
    | _ :: _ =>
        try_except
          (emit (ProviderCall api_key prompt_text) ;;
           summary <- lift (completion env) ;;
           match summary with
           | Some ((_ :: _) as content) => ret (strip content)
           | _ => ret (str "(OpenAI returned an empty summary)")
           end)
          (fun e => ret (str "(OpenAI API error: " ++ exn_text e ++ str ")"))
    end.

Definition summarize {S} (env : Env) (messages : list Message) : M S pystr :=
  emit (Summarize messages) ;;
  match messages with
  | [] => ret filler
  | _ :: _ => _summarize_with_openai env (full_prompt messages)
  end.

(* ===================================================================== *)
(** * MainWindow: the message buffer and its handlers *)
(* ===================================================================== *)

Definition CHAT_MODES : list pystr :=
  [str "Standard (read messages)"; str "Summaries (periodic)"].

Definition CHAT_MODE_STANDARD : pystr := nth 0 CHAT_MODES [].
Definition CHAT_MODE_SUMMARIES : pystr := nth 1 CHAT_MODES [].

Fixpoint str_eqb (a b : pystr) : bool :=
  match a, b with
  | [], [] => true
  | c :: a', d :: b' => (c =? d)%N && str_eqb a' b'
  | _, _ => false
  end.

(** The fields of [MainWindow] that the handlers below read or write.
    [last_summary_ts] holds a reading of [time.time()], taken as an exact
    rational number of seconds. *)
Record MainWindow := {
  pending_messages : list Message;
  last_summary_ts : Q;
  reader : option pystr
}.

(** The widget values a handler reads: [chat_mode.currentText()],
    [summary_interval.value()], [quick_summary_count_sb.value()]. *)
Record Widgets := {
  chat_mode : pystr;
  summary_interval : Z;
  quick_summary_count_sb : Z
}.

(** [DEFAULT_CONFIG["quick_summary_count"]], and the bounds given to
    [quick_summary_count_sb.setRange]. *)
Definition DEFAULT_quick_summary_count : Z := 50.
Definition quick_summary_count_min : Z := 5.
Definition quick_summary_count_max : Z := 500.

(** [l[start:]] *)
Definition slice_from {A} (start : Z) (l : list A) : list A :=
  let n := Z.of_nat (length l) in
  let i := if (start <? 0)%Z then Z.max 0 (start + n) else Z.min start n in
  skipn (Z.to_nat i) l.

Definition set_pending (w : MainWindow) (l : list Message) : MainWindow :=
  {| pending_messages := l; last_summary_ts := last_summary_ts w; reader := reader w |}.

Definition set_last_summary_ts (w : MainWindow) (t : Q) : MainWindow :=
  {| pending_messages := pending_messages w; last_summary_ts := t; reader := reader w |}.

Definition set_reader (w : MainWindow) (r : option pystr) : MainWindow :=
  {| pending_messages := pending_messages w; last_summary_ts := last_summary_ts w; reader := r |}.

Definition _on_message (ui : Widgets) (msg : Message) : M MainWindow unit :=
  let author := author msg in
  let text := text msg in
  w <- get ;;
  put (set_pending w (pending_messages w ++ [msg])) ;;
  if str_eqb (chat_mode ui) CHAT_MODE_STANDARD then
    let msg_type := type msg in
    (if str_eqb msg_type (str "superChat") || str_eqb msg_type (str "superSticker") then
       emit (PlaySound (str "donation"))
     else if is_moderator msg then emit (PlaySound (str "moderator"))
     else if is_verified msg then emit (PlaySound (str "verified"))
     else emit (PlaySound (str "chat"))) ;;
    let line := author ++ str ": " ++ text in
    emit (ChatViewAppend line) ;;
    emit (Speak line)
  else
    emit (ChatViewAppend (str "[msg] " ++ author ++ str ": " ++ text)).

(** [count] is read from the spin box: [quick_summary_count_sb] is created
    in [__init__], so the [hasattr] test holds and the configuration
    fallback is not taken.  [tts.speak] is an event: it hands the text to
    the backend and returns. *)
Definition _on_quick_summary (ui : Widgets) (env : Env) : M MainWindow unit :=
  w <- get ;;
  match pending_messages w with
  | [] =>
      let msg := str "No recent messages to summarize." in
      emit (ChatViewAppend (str "[Quick Summary] " ++ msg)) ;;
      try_except (emit (Speak msg)) (fun _ => ret tt)
  | _ :: _ =>
      emit (PlaySound (str "summary")) ;;
      let count := quick_summary_count_sb ui in
      let recent := slice_from (- count) (pending_messages w) in
      summary <- summarize env recent ;;
      emit (ChatViewAppend (str "[Quick Summary]" ++ [newline] ++ summary ++ [newline])) ;;
      try_except (emit (Speak summary)) (fun _ => ret tt)
  end.

(** [now] is the reading of [time.time()] in the condition, [now'] the later
    reading stored as the new baseline. *)
Definition _maybe_do_summary (ui : Widgets) (env : Env) (now now' : Q) : M MainWindow unit :=
  if negb (str_eqb (chat_mode ui) CHAT_MODE_SUMMARIES) then ret tt
  else
    let mins := Z.max 1 (summary_interval ui) in
    w <- get ;;
    if Qle_bool (inject_Z (mins * 60)) (now - last_summary_ts w)
       && match pending_messages w with [] => false | _ :: _ => true end
    then
      emit (PlaySound (str "summary")) ;;
      let msgs := pending_messages w in
      put (set_last_summary_ts (set_pending w []) now') ;;
      summary <- summarize env msgs ;;
      emit (ChatViewAppend (str "[Summary]" ++ [newline] ++ summary ++ [newline])) ;;
      emit (Speak summary)
    else ret tt.

(** Whether the periodic check is due: elapsed time since the baseline is at
    least the interval, which is never taken below one minute. *)
Definition due (ui : Widgets) (now : Q) (w : MainWindow) : Prop :=
  (inject_Z (Z.max 1 (summary_interval ui) * 60) <= now - last_summary_ts w)%Q.

Definition _on_start (url_text : pystr) (now : Q) : M MainWindow unit :=
  let url := strip url_text in
  match extract_youtube_video_id url with
  | None =>
      emit (WarningBox (str "Please enter a valid YouTube live URL or video ID."))
  | Some vid =>
      emit (PlaySound (str "start")) ;;
      emit (ChatViewAppend (str "Starting chat for video: " ++ vid)) ;;
      w <- get ;;
      put (set_reader w (Some vid)) ;;
      emit (ReaderStart vid) ;;
      w <- get ;;
      put (set_last_summary_ts (set_pending w []) now)
  end.

(** The consumer context runs one handler at a time, to completion: a
    buffer operation is one of these calls. *)
Inductive Op :=
| OnMessage (ui : Widgets) (msg : Message)
| OnQuickSummary (ui : Widgets) (env : Env)
| OnTimer (ui : Widgets) (env : Env) (now now' : Q).

Definition handler (op : Op) : M MainWindow unit :=
  match op with
  | OnMessage ui msg => _on_message ui msg
  | OnQuickSummary ui env => _on_quick_summary ui env
  | OnTimer ui env now now' => _maybe_do_summary ui env now now'
  end.

(** Runs the handlers in order; the log keeps, per call, what it emitted. *)
Fixpoint run_ops (ops : list Op) (w : MainWindow) : MainWindow * list (Op * list Event) :=
  match ops with
  | [] => (w, [])
  | op :: rest =>
      let '(_, w1, tr) := handler op w in
      let '(w2, log) := run_ops rest w1 in
      (w2, (op, tr) :: log)
  end.

Definition summarize_batches (tr : list Event) : list (list Message) :=
  flat_map (fun ev => match ev with Summarize b => [b] | _ => [] end) tr.

Definition provider_calls (tr : list Event) : list pystr :=
  flat_map (fun ev => match ev with ProviderCall _ p => [p] | _ => [] end) tr.

Definition narrations (tr : list Event) : list pystr :=
  flat_map (fun ev => match ev with Speak l => [l] | _ => [] end) tr.

Definition readers_started (tr : list Event) : list pystr :=
  flat_map (fun ev => match ev with ReaderStart v => [v] | _ => [] end) tr.

(** The batches handed to the summarizer by periodic flushes, in order. *)
Definition periodic_batches (log : list (Op * list Event)) : list (list Message) :=
  flat_map (fun '(op, tr) => match op with OnTimer _ _ _ _ => summarize_batches tr | _ => [] end) log.

(** The messages appended by a sequence of operations, in arrival order. *)
Definition appended (ops : list Op) : list Message :=
  flat_map (fun op => match op with OnMessage _ m => [m] | _ => [] end) ops.

(* ===================================================================== *)
(** * ChatReader: the ingestion thread *)
(* ===================================================================== *)

(** One element of [chat.get().items] of the primary backend. *)
Record ChatItem := {
  c_author_name : pystr;
  c_message : pystr;
  c_type : pystr;
  c_author_isChatModerator : bool;
  c_author_isVerified : bool
}.

(** One element yielded by the fallback backend; [None] is an absent key. *)
Record RawMsg := {
  message_type : pystr;
  raw_author_name : option pystr;
  raw_message : option pystr
}.

(** A connection of the primary backend: what the [j]-th [chat.is_alive()]
    and the [j]-th [chat.get().items] do. *)
Record Chat := {
  is_alive : nat -> result bool;
  get_items : nat -> result (list ChatItem)
}.

(** What advancing the fallback's iterator does: it blocks for [wait]
    milliseconds and yields a message, or is exhausted, or raises. *)
Inductive DNext :=
| DMsg (wait : N) (m : RawMsg)
| DEnd
| DRaise (e : exn).

(** The surroundings of one run: which backends were importable, what the
    [k]-th [pytchat.create] does, what [ChatDownloader().get_chat] does. *)
Record World := {
  pytchat : bool;
  ChatDownloader : bool;
  create : nat -> result Chat;
  get_chat : result (nat -> DNext)
}.

Inductive Signal :=
| message_received (msg : Message)
| error_message (line : pystr)
| stopped.

(** What the thread does; [Connect] is a call of [pytchat.create] or
    [get_chat], [Sleep] a call of [time.sleep] with its length in
    milliseconds. *)
Inductive Action :=
| Emit (sg : Signal)
| Connect
| Terminate
| Sleep (ms : N).

Inductive State :=
| Idle
| Connecting (k : nat)
| Streaming (k : nat) (chat : Chat) (j : nat)
| ReconnectWait (k : nat)
| Downloading (d : nat -> DNext) (j : nat)
| Stopped.

(** The clock counts milliseconds from the start of [run]; it advances in
    [time.sleep] and while the fallback's iterator blocks, the other calls
    take no time. *)
Definition Config : Type := State * N.

Definition POLL_MS : N := 500.
Definition BACKOFF_MS : N := 10000.

(** [stop()] is called at [stop_at] ([None]: never); the flag stays set. *)
Definition is_set (stop_at : option N) (t : N) : bool :=
  match stop_at with
  | Some s => (s <=? t)%N
  | None => false
  end.

Definition normalize_item (c : ChatItem) : Message :=
  {| author := c_author_name c;
     text := c_message c;
     type := c_type c;
     is_moderator := c_author_isChatModerator c;
     is_verified := c_author_isVerified c |}.

Definition normalize_raw (m : RawMsg) : Message :=
  {| author := match raw_author_name m with Some a => a | None => str "?" end;
     text := match raw_message m with Some x => x | None => [] end;
     type := str "textMessage";
     is_moderator := false;
     is_verified := false |}.

Definition reader_error (e : exn) : pystr :=
  str "Chat reader error: " ++ exn_text e ++ str ". Retrying in 10 seconds...".

Definition connection_lost : pystr :=
  str "Chat connection lost. Reconnecting in 10 seconds...".

Definition chat_disabled : pystr := str "Live chat is disabled for this stream.".

Definition downloader_error (e : exn) : pystr :=
  let emsg := exn_text e in
  if contains (str "disabled") (lower emsg) then chat_disabled
  else str "Chat downloader error: " ++ emsg.

Definition no_backend : pystr :=
  str "No chat backend is available. Install 'pytchat' or 'chat-downloader'.".

Definition at_time (t : N) (acts : list Action) : list (N * Action) :=
  map (fun a => (t, a)) acts.

(** One transition of [ChatReader.run] from the configuration [(st, t)],
    with what it does on the way, each action stamped with the clock.  The
    calls into the primary backend return at once here, so a flag test, the
    call that follows it and the emissions that follow the call carry the
    same reading; [step_timed] is the same transition with the duration of
    those calls, and agrees with this one when they take no time. *)
Definition step (w : World) (stop_at : option N) (c : Config) : Config * list (N * Action) :=
  let '(st, t) := c in
  match st with
  | Idle =>
      if pytchat w then ((Connecting 0, t), [])
      else if ChatDownloader w then
        match get_chat w with
        | Ok d => ((Downloading d 0, t), at_time t [Connect])
        | Raise e =>
            ((Stopped, t),
             at_time t [Connect; Emit (error_message (downloader_error e)); Emit stopped])
        end
      else ((Stopped, t), at_time t [Emit (error_message no_backend); Emit stopped])
  | Connecting k =>
      if is_set stop_at t then ((Stopped, t), at_time t [Emit stopped])
      else
        match create w k with
        | Raise e =>
            ((ReconnectWait (S k), t),
             at_time t [Connect; Emit (error_message (reader_error e))])
        | Ok chat => ((Streaming (S k) chat 0, t), at_time t [Connect])
        end
  | Streaming k chat j =>
      match is_alive chat j with
      | Raise e =>
          ((ReconnectWait k, t),
           at_time t [Emit (error_message (reader_error e)); Terminate])
      | Ok alive =>
          if alive && negb (is_set stop_at t) then
            match get_items chat j with
            | Raise e =>
                ((ReconnectWait k, t),
                 at_time t [Emit (error_message (reader_error e)); Terminate])
            | Ok items =>
                ((Streaming k chat (S j), t + POLL_MS)%N,
                 at_time t (map (fun c => Emit (message_received (normalize_item c))) items
                            ++ [Sleep POLL_MS]))
            end
          else if is_set stop_at t then
            ((Stopped, t), at_time t [Terminate; Emit stopped])
          else
            ((ReconnectWait k, t),
             at_time t [Emit (error_message connection_lost); Terminate])
      end
  | ReconnectWait k =>
      if is_set stop_at t then ((Connecting k, t), [])
      else ((Connecting k, t + BACKOFF_MS)%N, at_time t [Sleep BACKOFF_MS])
  | Downloading d j =>
      match d j with
      | DEnd => ((Stopped, t), at_time t [Emit stopped])
      | DRaise e =>
          ((Stopped, t),
           at_time t [Emit (error_message (downloader_error e)); Emit stopped])
      | DMsg wait m =>
          let t' := (t + wait)%N in
          if is_set stop_at t' then ((Stopped, t'), at_time t' [Emit stopped])
          else
            ((Downloading d (S j), t'),
             if str_eqb (message_type m) (str "text_message")
             then at_time t' [Emit (message_received (normalize_raw m))]
             else [])
      end
  | Stopped => ((Stopped, t), [])
  end.

Fixpoint run_steps (w : World) (stop_at : option N) (fuel : nat) (c : Config)
  : Config * list (N * Action) :=
  match fuel with
  | O => (c, [])
  | S fuel' =>
      let '(c1, tr1) := step w stop_at c in
      let '(c2, tr2) := run_steps w stop_at fuel' c1 in
      (c2, tr1 ++ tr2)
  end.

(** [ChatReader.run], for [fuel] transitions. *)
Definition run (w : World) (stop_at : option N) (fuel : nat) : Config * list (N * Action) :=
  run_steps w stop_at fuel (Idle, 0%N).

Definition connect_times (tr : list (N * Action)) : list N :=
  flat_map (fun '(t, a) => match a with Connect => [t] | _ => [] end) tr.

Definition is_pytchat_state (st : State) : bool :=
  match st with
  | Connecting _ | Streaming _ _ _ | ReconnectWait _ => true
  | _ => false
  end.

Definition backoff_times (tr : list (N * Action)) : list N :=
  flat_map (fun '(t, a) =>
              match a with
              | Sleep ms => if (ms =? BACKOFF_MS)%N then [t] else []
              | _ => []
              end) tr.

Definition stopped_times (tr : list (N * Action)) : list N :=
  flat_map (fun '(t, a) => match a with Emit stopped => [t] | _ => [] end) tr.

(** The configuration reached after [fuel] transitions. *)
Definition config_after (w : World) (stop_at : option N) (fuel : nat) : Config :=
  fst (run w stop_at fuel).

(** [stop()] called at [s] is observed within [bound] milliseconds: the
    thread reaches [Stopped] no later than [s + bound]. *)
Definition observes_stop_within (bound : N) (w : World) (s : N) : Prop :=
  exists fuel T tr,
    run w (Some s) fuel = ((Stopped, T), tr) /\ (T <= s + bound)%N.

(** With [stop()] never called, the run never ends. *)
Definition retried_until_stop (w : World) : Prop :=
  forall fuel, fst (config_after w None fuel) <> Stopped.

(** The [k]-th connection of the primary backend fails: [create] raises,
    or after some successful polls the connection is no longer alive or a
    call on it raises. *)
Definition attempt_fails (w : World) (k : nat) : Prop :=
  match create w k with
  | Raise _ => True
  | Ok chat =>
      exists j,
        (forall i, i < j ->
           is_alive chat i = Ok true /\ exists items, get_items chat i = Ok items)
        /\ (is_alive chat j <> Ok true \/ exists e, get_items chat j = Raise e)
  end.

(** A stream whose every connection attempt is refused. *)
Definition world_unreachable : World :=
  {| pytchat := true;
     ChatDownloader := true;
     create := fun _ => Raise (Exception (str "Connection refused"));
     get_chat := Raise (Exception (str "Connection refused")) |}.

(** Only the fallback backend is installed and its connection is reset. *)
Definition world_fallback_reset : World :=
  {| pytchat := false;
     ChatDownloader := true;
     create := fun _ => Raise (Exception (str "unused"));
     get_chat := Raise (Exception (str "Connection reset by peer")) |}.

(** Only the fallback backend is installed and the stream has no chat. *)
Definition world_fallback_disabled : World :=
  {| pytchat := false;
     ChatDownloader := true;
     create := fun _ => Raise (Exception (str "unused"));
     get_chat := Raise (Exception (str "Chat is Disabled for this video")) |}.

(* ===================================================================== *)
(** * MainWindow: observations on traces and logs *)
(* ===================================================================== *)

Definition sounds (tr : list Event) : list pystr :=
  flat_map (fun ev => match ev with PlaySound n => [n] | _ => [] end) tr.

Definition chat_view_lines (tr : list Event) : list pystr :=
  flat_map (fun ev => match ev with ChatViewAppend l => [l] | _ => [] end) tr.

(** The widget values an operation was run with. *)
Definition op_widgets (op : Op) : Widgets :=
  match op with
  | OnMessage ui _ => ui
  | OnQuickSummary ui _ => ui
  | OnTimer ui _ _ _ => ui
  end.

(** The clock readings of the timer checks that flushed, in order. *)
Definition flush_times (log : list (Op * list Event)) : list Q :=
  flat_map (fun '(op, tr) =>
              match op with
              | OnTimer _ _ now _ =>
                  match summarize_batches tr with
                  | [] => []
                  | _ :: _ => [now]
                  end
              | _ => []
              end) log.

(** Each reading is at least sixty seconds after the one before it,
    starting from [prev]. *)
Fixpoint spaced (prev : Q) (l : list Q) : Prop :=
  match l with
  | [] => True
  | t :: l' => (prev + 60 <= t)%Q /\ spaced t l'
  end.

(** Within one timer check the second clock reading is not earlier than
    the first. *)
Definition clock_monotone (ops : list Op) : Prop :=
  forall ui env now now', In (OnTimer ui env now now') ops -> (now <= now')%Q.

(** What [_on_error] does besides the calls recorded as [Event]: the
    status-bar message with its timeout in milliseconds. *)
Inductive UiEvent :=
| Ui (ev : Event)
| StatusMessage (line : pystr) (ms : Z).

Definition _on_error (err : pystr) : list UiEvent :=
  [Ui (PlaySound (str "error"));
   Ui (ChatViewAppend (str "[Error] " ++ err))]
  ++ (if contains (str "reconnecting") (lower err)
         || contains (str "connection lost") (lower err)
      then [StatusMessage err 5000]
      else [Ui (WarningBox err)]).

(* ===================================================================== *)
(** * ChatReader: observations on traces *)
(* ===================================================================== *)

(** The messages emitted through [message_received], in order. *)
Definition received (tr : list (N * Action)) : list Message :=
  flat_map (fun '(_, a) => match a with Emit (message_received m) => [m] | _ => [] end) tr.

(** The clock readings at which messages were emitted. *)
Definition received_times (tr : list (N * Action)) : list N :=
  flat_map (fun '(t, a) => match a with Emit (message_received _) => [t] | _ => [] end) tr.

(** The states a run can be in when only the fallback backend is used. *)
Definition is_fallback_state (st : State) : bool :=
  match st with
  | Idle | Downloading _ _ | Stopped => true
  | _ => false
  end.

(** What the fallback backend can hand on: a text message, without
    moderator or verification marks. *)
Definition plain_text_message (m : Message) : Prop :=
  type m = str "textMessage" /\ is_moderator m = false /\ is_verified m = false.

(** A stream that stays alive and yields one message per poll. *)
Definition world_live : World :=
  {| pytchat := true;
     ChatDownloader := false;
     create := fun _ =>
       Ok {| is_alive := fun _ => Ok true;
             get_items := fun j =>
               Ok [{| c_author_name := str "viewer";
                      c_message := str "hello";
                      c_type := str "textMessage";
                      c_author_isChatModerator := false;
                      c_author_isVerified := false |}] |};
     get_chat := Raise (Exception (str "unused")) |}.

(** Only the fallback backend is installed; it yields a paid message, which
    it does not report as a text message, then text messages. *)
Definition world_fallback_live : World :=
  {| pytchat := false;
     ChatDownloader := true;
     create := fun _ => Raise (Exception (str "unused"));
     get_chat :=
       Ok (fun j =>
             DMsg 300
               {| message_type := match j with
                                  | 0 => str "paid_message"
                                  | _ => str "text_message"
                                  end;
                  raw_author_name := Some (str "viewer");
                  raw_message := Some (str "hello") |}) |}.

(* ===================================================================== *)
(** * TTSManager *)
(* ===================================================================== *)

Definition TTS_OPTION_SYSTEM : pystr := str "System (screen reader/SAPI5)".

(** The configuration keys [TTSManager] reads.  [load_config] starts from
    [DEFAULT_CONFIG], so the keys are present and the defaults of the
    [cfg.get] calls are not taken. *)
Record TtsCfg := {
  tts_option : pystr;
  system_tts_backend : pystr;
  tts_voice : pystr
}.

(** What the platform offers: whether pywin32 is importable on Windows
    ([win32 is not None and pythoncom is not None and
    sys.platform.startswith("win")]); for [sapi5] and [AO2Auto] of
    accessible_output2, [None] when the import failed and otherwise
    whether the constructor returns; and what [system_out.speak(text)]
    does. *)
Record Platform := {
  sapi_direct : bool;
  sapi5_lib : option bool;
  auto_lib : option bool;
  output_speak : result unit
}.

(** The values of [TTSManager.system_out]. *)
Inductive SystemOut :=
| NoOutput
| SAPI5_DIRECT
| Sapi5Output
| AutoOutput.

Definition _init_system_tts (cfg : TtsCfg) (pf : Platform) : SystemOut :=
  let choice := system_tts_backend cfg in
  if starts_with (str "SAPI5") choice then
    if sapi_direct pf then SAPI5_DIRECT
    else
      match sapi5_lib pf with
      | Some true => Sapi5Output
      | _ => NoOutput
      end
  else
    match auto_lib pf with
    | Some true => AutoOutput
    | _ => NoOutput
    end.

(** What [speak] does with the text: it starts a SAPI thread
    ([_sapi5_say], with the voice to select), calls [system_out.speak], or
    prints a line. *)
Inductive TtsAction :=
| SapiThread (line : pystr) (voice : option pystr)
| OutputSpeak (out : SystemOut) (line : pystr)
| PrintLine (line : pystr).

(** [self.system_out and self.system_out != "SAPI5_DIRECT"] *)
Definition usable (out : SystemOut) : bool :=
  match out with
  | Sapi5Output | AutoOutput => true
  | NoOutput | SAPI5_DIRECT => false
  end.

(** [print(a, b)] *)
Definition print2 (a b : pystr) : TtsAction := PrintLine (a ++ str " " ++ b).

(** The guarded call of [system_out.speak(text)] followed by the printed
    notice when the output is missing or the call raised. *)
Definition speak_or_print (pf : Platform) (out : SystemOut) (line notice : pystr)
  : result unit * list TtsAction :=
  if usable out then
    match output_speak pf with
    | Ok _ => (Ok tt, [OutputSpeak out line])
    | Raise _ => (Ok tt, [OutputSpeak out line; print2 notice line])
    end
  else (Ok tt, [print2 notice line]).

Definition speak (cfg : TtsCfg) (pf : Platform) (system_out : SystemOut) (line : pystr)
  : result unit * list TtsAction :=
  let tts_opt := tts_option cfg in
  if str_eqb tts_opt TTS_OPTION_SYSTEM then
    let backend := system_tts_backend cfg in
    if starts_with (str "SAPI5") backend then
      if sapi_direct pf then
        (Ok tt,
         [SapiThread line match tts_voice cfg with [] => None | _ :: _ => Some (tts_voice cfg) end])
      else speak_or_print pf system_out line (str "[System SAPI5 unavailable]")
    else speak_or_print pf system_out line (str "[System Auto TTS unavailable]")
  else (Ok tt, [print2 (str "[" ++ tts_opt ++ str " stub]") line]).

(** The action hands the text to a speech backend. *)
Definition is_speech (a : TtsAction) : bool :=
  match a with
  | SapiThread _ _ | OutputSpeak _ _ => true
  | PrintLine _ => false
  end.

(** The action carries the text: as what is spoken, or at the end of the
    printed line. *)
Definition carries (line : pystr) (a : TtsAction) : Prop :=
  match a with
  | SapiThread l _ => l = line
  | OutputSpeak _ l => l = line
  | PrintLine l => exists notice, l = notice ++ line
  end.

(* ===================================================================== *)
(** * Voice listing: Amazon Polly *)
(* ===================================================================== *)

(** [a < b] on strings: lexicographic by code point. *)
Fixpoint str_ltb (a b : pystr) : bool :=
  match a, b with
  | [], [] => false
  | [], _ :: _ => true
  | _ :: _, [] => false
  | c :: a', d :: b' =>
      if (c <? d)%N then true
      else if (d <? c)%N then false
      else str_ltb a' b'
  end.

Definition str_lt (a b : pystr) : Prop := str_ltb a b = true.

Fixpoint insert_uniq (x : pystr) (l : list pystr) : list pystr :=
  match l with
  | [] => [x]
  | y :: l' =>
      if str_ltb x y then x :: l
      else if str_eqb x y then l
      else y :: insert_uniq x l'
  end.

(** [sorted(set(l))]: the distinct elements of [l] in increasing order. *)
Definition sorted_set (l : list pystr) : list pystr := fold_right insert_uniq [] l.

(** [[v.get("Id") for v in voices if v.get("Id")]], each voice given by its
    ["Id"] entry ([None] when absent). *)
Definition voice_ids (voices : list (option pystr)) : list pystr :=
  flat_map (fun v => match v with
                     | Some ((_ :: _) as id) => [id]
                     | _ => []
                     end) voices.

Definition nonempty (s : pystr) : bool :=
  match s with [] => false | _ :: _ => true end.

(** [boto3] tells whether the import succeeded; [describe_voices] is what
    creating the client and calling [describe_voices()] does: it raises, or
    yields the ["Voices"] list. *)
Definition list_polly_voices (boto3 : bool) (aws_key aws_secret region : pystr)
    (describe_voices : result (list (option pystr))) : list pystr :=
  if negb (boto3 && nonempty aws_key && nonempty aws_secret && nonempty region) then []
  else
    match describe_voices with
    | Ok voices => sorted_set (voice_ids voices)
    | Raise _ => []
    end.

(* ===================================================================== *)
(** * Configuration *)
(* ===================================================================== *)

(** A JSON value as far as the configuration uses them; [JOther] stands
    for any other value (a float, an array, an object). *)
Inductive JsonValue :=
| JNull
| JBool (b : bool)
| JInt (z : Z)
| JStr (s : pystr)
| JOther.

(** A [dict] with string keys: its items in insertion order, each key
    once. *)
Definition dict := list (pystr * JsonValue).

(** [d.get(k)] *)
Fixpoint dict_get (k : pystr) (d : dict) : option JsonValue :=
  match d with
  | [] => None
  | (k', v) :: d' => if str_eqb k k' then Some v else dict_get k d'
  end.

(** [d[k] = v] *)
Fixpoint dict_set (k : pystr) (v : JsonValue) (d : dict) : dict :=
  match d with
  | [] => [(k, v)]
  | (k', v') :: d' =>
      if str_eqb k k' then (k, v) :: d' else (k', v') :: dict_set k v d'
  end.

(** [d.update(other)] *)
Definition dict_update (d other : dict) : dict :=
  fold_left (fun acc kv => dict_set (fst kv) (snd kv) acc) other d.

Definition dict_keys (d : dict) : list pystr := map fst d.

Definition TTS_OPTIONS : list pystr :=
  [TTS_OPTION_SYSTEM; str "OpenAI TTS"; str "Google Cloud TTS";
   str "Amazon Polly"; str "ElevenLabs"].

Definition SYSTEM_TTS_ENGINES : list pystr :=
  [str "SAPI5 (Windows)"; str "Screen reader (Auto)"].

Definition DEFAULT_CONFIG : dict :=
  [(str "openai_api_key", JStr []);
   (str "google_cloud_tts_api_key", JStr []);
   (str "aws_access_key_id", JStr []);
   (str "aws_secret_access_key", JStr []);
   (str "aws_region", JStr (str "us-east-1"));
   (str "elevenlabs_api_key", JStr []);
   (str "tts_voice", JStr []);
   (str "sound_pack", JStr (str "Default"));
   (str "chat_mode", JStr (nth 0 CHAT_MODES []));
   (str "summary_provider", JStr (str "OpenAI"));
   (str "tts_option", JStr (nth 0 TTS_OPTIONS []));
   (str "system_tts_backend", JStr (nth 0 SYSTEM_TTS_ENGINES []));
   (str "summary_interval_minutes", JInt 5);
   (str "quick_summary_count", JInt DEFAULT_quick_summary_count);
   (str "window_x", JNull);
   (str "window_y", JNull);
   (str "window_w", JInt 900);
   (str "window_h", JInt 600);
   (str "window_max", JBool false)].

(** A document as [json.load] returns it: [None], a [bool], an [int], a
    [float], a [str], a [list], or a [dict] with its members in order, each
    key once. *)
#[warnings="-register-all"]
Inductive Json :=
| JsNull
| JsBool (b : bool)
| JsInt (z : Z)
| JsFloat
| JsStr (s : pystr)
| JsArray (items : list Json)
| JsObject (members : list (pystr * Json)).

(** The document as a configuration value. *)
Definition json_value (j : Json) : JsonValue :=
  match j with
  | JsNull => JNull
  | JsBool b => JBool b
  | JsInt z => JInt z
  | JsStr s => JStr s
  | JsFloat | JsArray _ | JsObject _ => JOther
  end.

(** The key of a pair that [dict.update] stores: a string, or another
    hashable value ([None], a [bool] or a number). *)
Inductive Key :=
| StrKey (k : pystr)
| OtherKey.

(** One element of a sequence given to [dict.update], read as a key and a
    value: a list of two items, a string of two characters (the
    characters), or a [dict] with two members (its keys).  [None] when
    [dict.update] raises at the element: it is not a sequence, its length
    is not two, or its first item is a list or a [dict] and cannot be a
    key. *)
Definition update_pair (item : Json) : option (Key * JsonValue) :=
  match item with
  | JsArray [k; v] =>
      match k with
      | JsStr s => Some (StrKey s, json_value v)
      | JsNull | JsBool _ | JsInt _ | JsFloat => Some (OtherKey, json_value v)
      | JsArray _ | JsObject _ => None
      end
  | JsStr [a; b] => Some (StrKey [a], JStr [b])
  | JsObject [(k1, _); (k2, _)] => Some (StrKey k1, JStr k2)
  | _ => None
  end.

(** [cfg.update(seq)] for a sequence: the pairs are stored one after the
    other until an element raises; the pairs stored before stay.  The
    result is the dictionary afterwards, as seen through its string keys,
    and whether the call raised. *)
Fixpoint merge_from_seq (cfg : dict) (items : list Json) : dict * bool :=
  match items with
  | [] => (cfg, false)
  | item :: rest =>
      match update_pair item with
      | None => (cfg, true)
      | Some (StrKey k, v) => merge_from_seq (dict_set k v cfg) rest
      | Some (OtherKey, _) => merge_from_seq cfg rest
      end
  end.

(** [cfg.update(loaded)] for any document: a [dict] is merged; a list is
    read as a sequence of pairs; a string is the sequence of its
    characters, each a string of length one; anything else is not iterable
    and the call raises at once. *)
Definition update_from (cfg : dict) (loaded : Json) : dict * bool :=
  match loaded with
  | JsObject members =>
      (dict_update cfg (map (fun kv => (fst kv, json_value (snd kv))) members), false)
  | JsArray items => merge_from_seq cfg items
  | JsStr s => merge_from_seq cfg (map (fun c => JsStr [c]) s)
  | JsNull | JsBool _ | JsInt _ | JsFloat => (cfg, true)
  end.

(** The string-keyed pairs of the elements of a sequence that
    [dict.update] accepts. *)
Definition seq_pairs (items : list Json) : dict :=
  flat_map (fun item => match update_pair item with
                        | Some (StrKey k, v) => [(k, v)]
                        | _ => []
                        end) items.

(** [ensure_config_dir] is what creating the two directories does; [file]
    is [None] when there is no file at [CONFIG_PATH], and otherwise what
    opening and parsing it do: they raise, or the parsed document is
    [loaded].  The defaults are copied and updated in place, so whatever
    the update stored before it raised is in the configuration returned. *)
Definition load_config (ensure_config_dir : result unit) (file : option (result Json))
  : result dict :=
  match ensure_config_dir with
  | Raise e => Raise e
  | Ok _ =>
      let cfg := DEFAULT_CONFIG in
      match file with
      | Some (Ok loaded) => Ok (fst (update_from cfg loaded))
      | Some (Raise _) => Ok cfg
      | None => Ok cfg
      end
  end.

(** The texts of the fields of [OptionsDialog]. *)
Record OptionsDialog := {
  openai_key : pystr;
  gcloud_key : pystr;
  aws_key : pystr;
  aws_secret : pystr;
  aws_region : pystr;
  eleven_key : pystr;
  voice : pystr;
  sound_pack_combo : pystr;
  system_tts_mode : pystr
}.

(** [x or y] on strings. *)
Definition str_or (x y : pystr) : pystr :=
  match x with [] => y | _ :: _ => x end.

Definition get_updated_config (cfg : dict) (dlg : OptionsDialog) : dict :=
  dict_update cfg
    [(str "openai_api_key", JStr (strip (openai_key dlg)));
     (str "google_cloud_tts_api_key", JStr (strip (gcloud_key dlg)));
     (str "aws_access_key_id", JStr (strip (aws_key dlg)));
     (str "aws_secret_access_key", JStr (strip (aws_secret dlg)));
     (str "aws_region", JStr (str_or (strip (aws_region dlg)) (str "us-east-1")));
     (str "elevenlabs_api_key", JStr (strip (eleven_key dlg)));
     (str "tts_voice", JStr (strip (voice dlg)));
     (str "sound_pack", JStr (sound_pack_combo dlg));
     (str "system_tts_backend", JStr (system_tts_mode dlg))].

(** The keys the options dialog writes. *)
Definition dialog_keys : list pystr :=
  [str "openai_api_key"; str "google_cloud_tts_api_key"; str "aws_access_key_id";
   str "aws_secret_access_key"; str "aws_region"; str "elevenlabs_api_key";
   str "tts_voice"; str "sound_pack"; str "system_tts_backend"].

(** How often [chat.terminate()] was called. *)
Definition terminate_count (tr : list (N * Action)) : nat :=
  length (flat_map (fun '(_, a) => match a with Terminate => [tt] | _ => [] end) tr).

(** How many of the first [k] calls of [pytchat.create] returned a
    connection. *)
Fixpoint opened (w : World) (k : nat) : nat :=
  match k with
  | O => O
  | S k' => opened w k' + match create w k' with Ok _ => 1 | Raise _ => 0 end
  end.

(** The state of the connection handles of the primary backend after the
    trace [tr]: the attempts made are the [Connect] actions; while
    streaming exactly one opened connection is not yet terminated, and
    otherwise none. *)
Definition handles_accounted (w : World) (st : State) (tr : list (N * Action)) : Prop :=
  let k := length (connect_times tr) in
  match st with
  | Idle => tr = []
  | Connecting k' | ReconnectWait k' => k' = k /\ terminate_count tr = opened w k
  | Streaming k' _ _ => k' = k /\ S (terminate_count tr) = opened w k
  | Downloading _ _ => False
  | Stopped => terminate_count tr = opened w k
  end.

(** The waiting times of the items [j .. j+m-1] of the fallback's
    iterator, added up. *)
Fixpoint total_wait (waits : nat -> N) (j m : nat) : N :=
  match m with
  | O => 0%N
  | S m' => (waits j + total_wait waits (S j) m')%N
  end.

Definition is_text_message (m : RawMsg) : bool :=
  str_eqb (message_type m) (str "text_message").

(** [SoundManager.SOUND_FILES] *)
Definition SOUND_FILES : list pystr :=
  [str "chat"; str "donation"; str "error"; str "moderator";
   str "start"; str "stop"; str "summary"; str "verified"].

Definition ui_sounds (tr : list UiEvent) : list pystr :=
  flat_map (fun ev => match ev with Ui (PlaySound n) => [n] | _ => [] end) tr.

(** All events of a log, in order. *)
Definition log_events (log : list (Op * list Event)) : list Event :=
  flat_map snd log.

Definition is_quick_summary (op : Op) : bool :=
  match op with OnQuickSummary _ _ => true | _ => false end.

(* ===================================================================== *)
(** * ChatReader: the ingestion thread with the duration of library calls *)
(* ===================================================================== *)

(** How long the calls into the primary backend take, in milliseconds:
    the [k]-th [pytchat.create], and on connection number [k] the [j]-th
    [chat.is_alive()], the [j]-th [chat.get()] and [chat.terminate()]. *)
Record Timing := {
  create_ms : nat -> N;
  is_alive_ms : nat -> nat -> N;
  get_ms : nat -> nat -> N;
  terminate_ms : nat -> N
}.

(** Every call returns at once. *)
Definition no_delay : Timing :=
  {| create_ms := fun _ => 0%N;
     is_alive_ms := fun _ _ => 0%N;
     get_ms := fun _ _ => 0%N;
     terminate_ms := fun _ => 0%N |}.

(** No call takes longer than [L] milliseconds. *)
Definition calls_within (lat : Timing) (L : N) : Prop :=
  (forall k, create_ms lat k <= L)%N
  /\ (forall k j, is_alive_ms lat k j <= L)%N
  /\ (forall k j, get_ms lat k j <= L)%N
  /\ (forall k, terminate_ms lat k <= L)%N.

(** One transition of [ChatReader.run] as [step], with the clock also
    advancing during the calls into the primary backend.  The stop flag is
    read where the source reads it: at the head of the reconnect loop, after
    [chat.is_alive()] has returned in the condition of the inner loop and in
    the test that follows that loop, and before the reconnect sleep.  It is
    not read between [chat.get()] and the emission of its items, nor before
    the poll sleep.  Time passes in the sleeps and in the calls into the
    backend; the statements of [run] itself, the emissions among them, take
    none. *)
Definition step_timed (lat : Timing) (w : World) (stop_at : option N) (c : Config)
  : Config * list (N * Action) :=
  let '(st, t) := c in
  match st with
  | Connecting k =>
      if is_set stop_at t then ((Stopped, t), at_time t [Emit stopped])
      else
        let t1 := (t + create_ms lat k)%N in
        match create w k with
        | Raise e =>
            ((ReconnectWait (S k), t1),
             [(t, Connect); (t1, Emit (error_message (reader_error e)))])
        | Ok chat => ((Streaming (S k) chat 0, t1), [(t, Connect)])
        end
  | Streaming k chat j =>
      let t1 := (t + is_alive_ms lat k j)%N in
      match is_alive chat j with
      | Raise e =>
          ((ReconnectWait k, (t1 + terminate_ms lat k)%N),
           at_time t1 [Emit (error_message (reader_error e)); Terminate])
      | Ok alive =>
          if alive && negb (is_set stop_at t1) then
            let t2 := (t1 + get_ms lat k j)%N in
            match get_items chat j with
            | Raise e =>
                ((ReconnectWait k, (t2 + terminate_ms lat k)%N),
                 at_time t2 [Emit (error_message (reader_error e)); Terminate])
            | Ok items =>
                ((Streaming k chat (S j), (t2 + POLL_MS)%N),
                 at_time t2 (map (fun c => Emit (message_received (normalize_item c))) items
                             ++ [Sleep POLL_MS]))
            end
          else if is_set stop_at t1 then
            ((Stopped, (t1 + terminate_ms lat k)%N),
             [(t1, Terminate); ((t1 + terminate_ms lat k)%N, Emit stopped)])
          else
            ((ReconnectWait k, (t1 + terminate_ms lat k)%N),
             at_time t1 [Emit (error_message connection_lost); Terminate])
      end
  | ReconnectWait k =>
      if is_set stop_at t then ((Connecting k, t), [])
      else ((Connecting k, (t + BACKOFF_MS)%N), at_time t [Sleep BACKOFF_MS])
  | Idle | Downloading _ _ | Stopped => step w stop_at (st, t)
  end.

Fixpoint run_steps_timed (lat : Timing) (w : World) (stop_at : option N) (fuel : nat)
    (c : Config) : Config * list (N * Action) :=
  match fuel with
  | O => (c, [])
  | S fuel' =>
      let '(c1, tr1) := step_timed lat w stop_at c in
      let '(c2, tr2) := run_steps_timed lat w stop_at fuel' c1 in
      (c2, tr1 ++ tr2)
  end.

(** [ChatReader.run] with the duration of library calls, for [fuel]
    transitions. *)
Definition run_timed (lat : Timing) (w : World) (stop_at : option N) (fuel : nat)
  : Config * list (N * Action) :=
  run_steps_timed lat w stop_at fuel (Idle, 0%N).

(** The latest the thread can end after a stop request when no call takes
    longer than [L]: the reconnect sleep, or one poll (its [get], its sleep,
    the next [is_alive]) and the [terminate] that follows. *)
Definition stop_delay_bound (L : N) : N := N.max 10000 (500 + 3 * L).

(** The clock readings a configuration of a run on the primary backend can
    have when [stop()] is called at [s] and no call takes longer than [L]. *)
Definition timely (s L : N) (c : Config) : Prop :=
  match fst c with
  | Idle => snd c = 0%N
  | Connecting _ | ReconnectWait _ => (snd c < s + stop_delay_bound L)%N
  | Streaming _ _ _ => (snd c < s + (500 + L))%N
  | Downloading _ _ => False
  | Stopped => (s <= snd c)%N /\ (snd c < s + stop_delay_bound L)%N
  end.

(** A stream that stays alive, whose [chat.get()] takes 300 ms. *)
Definition slow_get : Timing :=
  {| create_ms := fun _ => 0%N;
     is_alive_ms := fun _ _ => 0%N;
     get_ms := fun _ _ => 300%N;
     terminate_ms := fun _ => 0%N |}.

(* ===================================================================== *)
(** * Properties of the string helpers *)
(* ===================================================================== *)

Lemma in_range_spec lo hi c :
  in_range lo hi c = true <-> (lo <= c /\ c <= hi)%N.
Proof.
  unfold in_range. rewrite andb_true_iff, !N.leb_le. reflexivity.
Qed.

Lemma is_id_char_spec c :
  is_id_char c = true <->
  ((65 <= c /\ c <= 90) \/ (97 <= c /\ c <= 122) \/ (48 <= c /\ c <= 57)
   \/ c = 95 \/ c = 45)%N.
Proof.
  unfold is_id_char.
  rewrite !orb_true_iff, !in_range_spec, !N.eqb_eq. tauto.
Qed.

Lemma id_char_not_space c : is_id_char c = true -> isspace c = false.
Proof.
  rewrite is_id_char_spec. intros H.
  destruct (isspace c) eqn:E; [exfalso | reflexivity].
  unfold isspace in E.
  rewrite !orb_true_iff, !in_range_spec, !N.eqb_eq in E. lia.
Qed.

Lemma lstrip_head s :
  match lstrip s with [] => True | c :: _ => isspace c = false end.
Proof.
  induction s as [|c s IH]; simpl; [exact I|].
  destruct (isspace c) eqn:E; [exact IH | exact E].
Qed.

Lemma lstrip_fix s :
  match s with [] => True | c :: _ => isspace c = false end -> lstrip s = s.
Proof.
  destruct s as [|c s]; simpl; [reflexivity|]. intros ->. reflexivity.
Qed.

Lemma lstrip_snoc a c : isspace c = false -> lstrip (a ++ [c]) = lstrip a ++ [c].
Proof.
  intros Hc. induction a as [|x a IH]; simpl.
  - rewrite Hc. reflexivity.
  - destruct (isspace x); [exact IH | reflexivity].
Qed.

Lemma rstrip_cons c l : isspace c = false -> rstrip (c :: l) = c :: rstrip l.
Proof.
  intros Hc. unfold rstrip. simpl.
  rewrite lstrip_snoc by exact Hc. rewrite rev_app_distr. reflexivity.
Qed.

Lemma rstrip_idem s : rstrip (rstrip s) = rstrip s.
Proof.
  unfold rstrip. rewrite rev_involutive.
  rewrite (lstrip_fix (lstrip (rev s))) by apply lstrip_head. reflexivity.
Qed.

Lemma strip_idem s : strip (strip s) = strip s.
Proof.
  unfold strip.
  assert (H : lstrip (rstrip (lstrip s)) = rstrip (lstrip s)).
  { pose proof (lstrip_head s) as Hh.
    destruct (lstrip s) as [|c l]; [reflexivity|].
    rewrite rstrip_cons by exact Hh. apply lstrip_fix. exact Hh. }
  rewrite H. apply rstrip_idem.
Qed.

Lemma lstrip_no_space s : forallb is_id_char s = true -> lstrip s = s.
Proof.
  intros H. apply lstrip_fix. destruct s as [|c s]; [exact I|].
  simpl in H. apply andb_true_iff in H. apply id_char_not_space, H.
Qed.

Lemma forallb_rev {A} (f : A -> bool) l : forallb f (rev l) = forallb f l.
Proof.
  induction l as [|x l IH]; simpl; [reflexivity|].
  rewrite forallb_app, IH. simpl. rewrite andb_true_r. apply andb_comm.
Qed.

Lemma strip_id_chars s : forallb is_id_char s = true -> strip s = s.
Proof.
  intros H. unfold strip, rstrip.
  rewrite (lstrip_no_space s H).
  rewrite lstrip_no_space by (rewrite forallb_rev; exact H).
  apply rev_involutive.
Qed.

Lemma fullmatch_id_spec s :
  fullmatch_id s = true <->
  length s = 11 /\ Forall (fun c => is_id_char c = true) s.
Proof.
  unfold fullmatch_id.
  rewrite andb_true_iff, Nat.eqb_eq, forallb_forall, Forall_forall. reflexivity.
Qed.

Lemma starts_with_spec p s :
  starts_with p s = true <-> exists rest, s = p ++ rest.
Proof.
  revert s. induction p as [|c p IH]; intros s; simpl.
  - split; [intros _; exists s; reflexivity | reflexivity].
  - destruct s as [|d s].
    + split; [discriminate | intros [rest H]; discriminate H].
    + rewrite andb_true_iff, N.eqb_eq, IH. split.
      * intros [-> [rest ->]]. exists rest. reflexivity.
      * intros [rest H]. injection H as -> ->. split; [reflexivity | eauto].
Qed.

Lemma match_at_spec lit s g :
  match_at lit s = Some g <->
  exists post, s = lit ++ g ++ post /\ fullmatch_id g = true.
Proof.
  unfold match_at. split.
  - destruct (starts_with lit s) eqn:Hs; [|discriminate].
    apply starts_with_spec in Hs. destruct Hs as [rest ->].
    rewrite skipn_app, skipn_all, Nat.sub_diag. cbn [skipn app].
    destruct (fullmatch_id (firstn 11 rest)) eqn:Hf; [|discriminate].
    intros H.
    assert (Hg : firstn 11 rest = g) by (injection H; trivial).
    rewrite <- Hg.
    exists (skipn 11 rest). rewrite firstn_skipn. auto.
  - intros [post [-> Hf]].
    assert (Hs : starts_with lit (lit ++ g ++ post) = true)
      by (apply starts_with_spec; eauto).
    rewrite Hs, skipn_app, skipn_all, Nat.sub_diag. cbn [skipn app].
    pose proof Hf as Hf'. apply fullmatch_id_spec in Hf'. destruct Hf' as [Hl _].
    rewrite firstn_app, <- Hl, firstn_all, Nat.sub_diag. cbn [firstn].
    rewrite app_nil_r, Hf. reflexivity.
Qed.

Lemma re_search_sound lit s g : re_search lit s = Some g -> occurs lit s g.
Proof.
  induction s as [|c s IH]; simpl.
  - destruct (match_at lit []) eqn:Hm; [|discriminate].
    intros H. injection H as ->. apply match_at_spec in Hm.
    destruct Hm as [post [H Hf]]. exists [], post. auto.
  - destruct (match_at lit (c :: s)) eqn:Hm.
    + intros H. injection H as ->. apply match_at_spec in Hm.
      destruct Hm as [post [H Hf]]. exists [], post. auto.
    + intros H. destruct (IH H) as [pre [post [-> Hf]]].
      exists (c :: pre), post. auto.
Qed.

Lemma re_search_complete lit s :
  re_search lit s = None -> forall r, ~ occurs lit s r.
Proof.
  induction s as [|c s IH]; simpl; intros H r [pre [post [E Hf]]].
  - destruct (match_at lit []) eqn:Hm; [discriminate|].
    destruct pre; [|discriminate]. simpl in E.
    assert (match_at lit [] = Some r) by (apply match_at_spec; eauto).
    congruence.
  - destruct (match_at lit (c :: s)) eqn:Hm; [discriminate|].
    destruct pre as [|x pre].
    + simpl in E.
      assert (match_at lit (c :: s) = Some r) by (apply match_at_spec; eauto).
      congruence.
    + simpl in E. injection E as _ E.
      apply (IH H r). exists pre, post. auto.
Qed.

Lemma re_search_id lit s g : re_search lit s = Some g -> fullmatch_id g = true.
Proof.
  intros H. destruct (re_search_sound _ _ _ H) as [_ [_ [_ Hf]]]. exact Hf.
Qed.

Lemma extract_is_id u r :
  extract_youtube_video_id u = Some r -> fullmatch_id r = true.
Proof.
  unfold extract_youtube_video_id, url_patterns. simpl.
  destruct (fullmatch_id (strip u)) eqn:Hf.
  - intros H. injection H as <-. exact Hf.
  - repeat match goal with
           | |- context [re_search ?l ?s] =>
               let E := fresh "E" in
               destruct (re_search l s) eqn:E;
               [intros H; injection H as <-; eapply re_search_id; eassumption|]
           end.
    discriminate.
Qed.

Lemma re_search_some_iff lit s :
  re_search lit s <> None <-> exists r, occurs lit s r.
Proof.
  split.
  - destruct (re_search lit s) as [g|] eqn:E; [|congruence].
    intros _. exists g. apply re_search_sound, E.
  - intros [r Hr] E. exact (re_search_complete _ _ E r Hr).
Qed.

Lemma on_start_rejects url_text now w :
  extract_youtube_video_id url_text = None ->
  _on_start url_text now w
  = (Ok tt, w, [WarningBox (str "Please enter a valid YouTube live URL or video ID.")]).
Proof.
  intros H. unfold _on_start.
  assert (E : extract_youtube_video_id (strip url_text) = None).
  { unfold extract_youtube_video_id in *. rewrite strip_idem. exact H. }
  rewrite E. reflexivity.
Qed.

(* ===================================================================== *)
(** * Stream identifier extraction: theorems *)
(* ===================================================================== *)

(** C9. The extractor accepts exactly the inputs whose stripped text is an
    11-character id or contains [youtu.be/<id>], [v=<id>] or [live/<id>];
    the raw id is tried first and then the patterns in that order, the
    first that matches giving the result; the two scenario inputs give
    ["dQw4w9WgXcQ"] and no match; and on an input with no match [_on_start]
    only shows the warning: the window state is unchanged and no reader is
    created or started. *)
Theorem extract_youtube_video_id_accepts (u : pystr) :
  let s := strip u in
  (extract_youtube_video_id u <> None <->
     fullmatch_id s = true
     \/ (exists r, occurs (str "youtu.be/") s r)
     \/ (exists r, occurs (str "v=") s r)
     \/ (exists r, occurs (str "live/") s r))
  /\ (fullmatch_id s = true -> extract_youtube_video_id u = Some s)
  /\ (fullmatch_id s = false ->
      (exists r, occurs (str "youtu.be/") s r) ->
      exists r, extract_youtube_video_id u = Some r /\ occurs (str "youtu.be/") s r)
  /\ (fullmatch_id s = false ->
      (forall r, ~ occurs (str "youtu.be/") s r) ->
      (exists r, occurs (str "v=") s r) ->
      exists r, extract_youtube_video_id u = Some r /\ occurs (str "v=") s r)
  /\ (fullmatch_id s = false ->
      (forall r, ~ occurs (str "youtu.be/") s r) ->
      (forall r, ~ occurs (str "v=") s r) ->
      (exists r, occurs (str "live/") s r) ->
      exists r, extract_youtube_video_id u = Some r /\ occurs (str "live/") s r)
  /\ extract_youtube_video_id (str "https://www.youtu.be/dQw4w9WgXcQ")
     = Some (str "dQw4w9WgXcQ")
  /\ extract_youtube_video_id (str "not a url") = None
  /\ (forall now w,
        extract_youtube_video_id u = None ->
        _on_start u now w
        = (Ok tt, w, [WarningBox (str "Please enter a valid YouTube live URL or video ID.")])
        /\ readers_started [WarningBox (str "Please enter a valid YouTube live URL or video ID.")] = []).
Proof.
  intros s.
  assert (Hex : extract_youtube_video_id u
                = if fullmatch_id s then Some s
                  else match re_search (str "youtu.be/") s with
                       | Some g => Some g
                       | None =>
                           match re_search (str "v=") s with
                           | Some g => Some g
                           | None => re_search (str "live/") s
                           end
                       end).
  { unfold extract_youtube_video_id, url_patterns. fold s. cbn [first_pattern].
    destruct (fullmatch_id s); [reflexivity|].
    destruct (re_search (str "youtu.be/") s); [reflexivity|].
    destruct (re_search (str "v=") s); [reflexivity|].
    destruct (re_search (str "live/") s); reflexivity. }
  split; [split | repeat apply conj].
  - rewrite Hex. rewrite <- !re_search_some_iff.
    destruct (fullmatch_id s); [intros _; left; reflexivity|].
    destruct (re_search (str "youtu.be/") s); [intros _; right; left; congruence|].
    destruct (re_search (str "v=") s); [intros _; right; right; left; congruence|].
    intros H. right; right; right. exact H.
  - rewrite Hex. rewrite <- !re_search_some_iff.
    destruct (fullmatch_id s); [congruence|].
    destruct (re_search (str "youtu.be/") s); [congruence|].
    destruct (re_search (str "v=") s); [congruence|].
    intros [H|[H|[H|H]]]; congruence.
  - rewrite Hex. intros ->. reflexivity.
  - rewrite Hex. intros -> H. apply re_search_some_iff in H.
    destruct (re_search (str "youtu.be/") s) as [g|] eqn:E; [|congruence].
    exists g. split; [reflexivity | apply re_search_sound, E].
  - rewrite Hex. intros -> Hy H. apply re_search_some_iff in H.
    destruct (re_search (str "youtu.be/") s) as [g|] eqn:E.
    + exfalso. exact (Hy g (re_search_sound _ _ _ E)).
    + destruct (re_search (str "v=") s) as [g|] eqn:E2; [|congruence].
      exists g. split; [reflexivity | apply re_search_sound, E2].
  - rewrite Hex. intros -> Hy Hv H. apply re_search_some_iff in H.
    destruct (re_search (str "youtu.be/") s) as [g|] eqn:E.
    + exfalso. exact (Hy g (re_search_sound _ _ _ E)).
    + destruct (re_search (str "v=") s) as [g|] eqn:E2.
      * exfalso. exact (Hv g (re_search_sound _ _ _ E2)).
      * destruct (re_search (str "live/") s) as [g|] eqn:E3; [|congruence].
        exists g. split; [reflexivity | apply re_search_sound, E3].
  - vm_compute. reflexivity.
  - vm_compute. reflexivity.
  - intros now w H. split; [apply on_start_rejects; exact H | reflexivity].
Qed.

Lemma extract_youtube_video_id_accepts_witness :
  extract_youtube_video_id (str "not a url") = None
  /\ forall now w,
       _on_start (str "not a url") now w
       = (Ok tt, w, [WarningBox (str "Please enter a valid YouTube live URL or video ID.")]).
Proof.
  split; [reflexivity|].
  intros now w.
  apply (extract_youtube_video_id_accepts (str "not a url")).
  reflexivity.
Defined.

(** C10. Extraction is idempotent on success: a returned id has 11
    characters, all in [[A-Za-z0-9_-]], and extracting it again returns it. *)
Theorem extract_youtube_video_id_idempotent (s r : pystr) :
  extract_youtube_video_id s = Some r ->
  length r = 11
  /\ Forall (fun c => is_id_char c = true) r
  /\ extract_youtube_video_id r = Some r.
Proof.
  intros H. apply extract_is_id in H.
  pose proof H as Hf. apply fullmatch_id_spec in Hf. destruct Hf as [Hl Hc].
  repeat split; try assumption.
  unfold extract_youtube_video_id.
  assert (Hs : strip r = r).
  { apply strip_id_chars. unfold fullmatch_id in H.
    apply andb_true_iff in H. apply H. }
  rewrite Hs, H. reflexivity.
Qed.

Lemma extract_youtube_video_id_idempotent_witness :
  extract_youtube_video_id (str "  https://www.youtube.com/watch?v=dQw4w9WgXcQ&t=42 ")
  = Some (str "dQw4w9WgXcQ")
  /\ extract_youtube_video_id (str "dQw4w9WgXcQ") = Some (str "dQw4w9WgXcQ").
Proof.
  split; [reflexivity|].
  apply (extract_youtube_video_id_idempotent
           (str "  https://www.youtube.com/watch?v=dQw4w9WgXcQ&t=42 ")
           (str "dQw4w9WgXcQ")).
  reflexivity.
Defined.

(* ===================================================================== *)
(** * Summarizer: theorems *)
(* ===================================================================== *)


Lemma summarize_with_openai_run {S} (env : Env) (prompt : pystr) (s : S) :
  exists out tr,
    _summarize_with_openai env prompt s = (Ok out, s, tr)
    /\ (tr = [] \/ tr = [ProviderCall (openai_api_key env) prompt])
    /\ (openai env = true -> openai_api_key env <> [] ->
        tr = [ProviderCall (openai_api_key env) prompt]).
Proof.
  unfold _summarize_with_openai.
  destruct (openai env); cbn [negb].
  2:{ eexists _, _. split; [reflexivity|]. split; [left; reflexivity | discriminate]. }
  destruct (openai_api_key env) as [|k key] eqn:Hk.
  { eexists _, _. split; [reflexivity|]. split; [left; reflexivity | congruence]. }
  unfold try_except, bind, emit, lift, ret.
  destruct (completion env) as [[[|c content]|]|e]; cbn;
    eexists _, _; (split; [reflexivity|]); split; auto.
Qed.

Lemma summarize_run {S} (env : Env) (messages : list Message) (s : S) :
  exists out tr,
    summarize env messages s = (Ok out, s, Summarize messages :: tr)
    /\ (tr = [] \/ tr = [ProviderCall (openai_api_key env) (full_prompt messages)])
    /\ (messages = [] -> out = filler /\ tr = []).
Proof.
  unfold summarize. destruct messages as [|m ms].
  - exists filler, []. cbn. repeat split; auto.
  - destruct (summarize_with_openai_run env (full_prompt (m :: ms)) s)
      as [out [tr [E [Htr _]]]].
    exists out, tr. unfold bind, emit. rewrite E. cbn.
    repeat split; auto; discriminate.
Qed.



Lemma split_on_no_sep sep l :
  ~ In sep l -> split_on sep l = [l].
Proof.
  induction l as [|c l IH]; intros H; simpl; [reflexivity|].
  destruct (N.eqb_spec c sep) as [->|Hne].
  - exfalso. apply H. left. reflexivity.
  - rewrite IH; [reflexivity|]. intros Hin. apply H. right. exact Hin.
Qed.

Lemma split_on_app_sep sep l rest :
  ~ In sep l -> split_on sep (l ++ sep :: rest) = l :: split_on sep rest.
Proof.
  induction l as [|c l IH]; intros H; simpl.
  - rewrite N.eqb_refl. reflexivity.
  - destruct (N.eqb_spec c sep) as [->|Hne].
    + exfalso. apply H. left. reflexivity.
    + rewrite IH; [reflexivity|]. intros Hin. apply H. right. exact Hin.
Qed.

Lemma split_on_join sep (ls : list pystr) :
  ls <> [] -> Forall (fun l => ~ In sep l) ls ->
  split_on sep (join [sep] ls) = ls.
Proof.
  induction ls as [|l ls IH]; intros Hne Hall; [congruence|].
  inversion Hall as [|? ? Hl Hls]; subst.
  destruct ls as [|l' ls'].
  - simpl. apply split_on_no_sep, Hl.
  - change (join [sep] (l :: l' :: ls')) with (l ++ sep :: join [sep] (l' :: ls')).
    rewrite split_on_app_sep by exact Hl.
    rewrite IH; [reflexivity | discriminate | exact Hls].
Qed.



(* ===================================================================== *)
(** * MainWindow: theorems *)
(* ===================================================================== *)

Lemma str_eqb_refl a : str_eqb a a = true.
Proof.
  induction a as [|c a IH]; simpl; [reflexivity|].
  rewrite N.eqb_refl. exact IH.
Qed.

Lemma str_eqb_eq a b : str_eqb a b = true <-> a = b.
Proof.
  split; [|intros ->; apply str_eqb_refl].
  revert b. induction a as [|c a IH]; destruct b as [|d b]; simpl;
    try discriminate; [reflexivity|].
  rewrite andb_true_iff, N.eqb_eq. intros [-> H]. f_equal. apply IH, H.
Qed.

Lemma mode_standard_not_summaries :
  str_eqb CHAT_MODE_STANDARD CHAT_MODE_SUMMARIES = false.
Proof. reflexivity. Qed.

(** C8. In real-time mode a message is appended to the buffer, which grows
    by one, is narrated exactly once as [author: text], and the summarizer
    and the provider are not called; the scenario message [{a, "hi"}] on an
    empty buffer gives the single narration ["a: hi"] and buffer length 1. *)
Theorem on_message_realtime (ui : Widgets) (msg : Message) (w : MainWindow) :
  chat_mode ui = CHAT_MODE_STANDARD ->
  exists tr,
    _on_message ui msg w
    = (Ok tt, set_pending w (pending_messages w ++ [msg]), tr)
    /\ narrations tr = [author msg ++ str ": " ++ text msg]
    /\ summarize_batches tr = []
    /\ provider_calls tr = []
    /\ length (pending_messages (set_pending w (pending_messages w ++ [msg])))
       = S (length (pending_messages w))
    /\ (author msg = str "a" -> text msg = str "hi" -> pending_messages w = [] ->
        narrations tr = [str "a: hi"]
        /\ length (pending_messages (set_pending w (pending_messages w ++ [msg]))) = 1).
Proof.
  intros Hmode. unfold _on_message. rewrite Hmode, str_eqb_refl.
  assert (Hlen : length (pending_messages (set_pending w (pending_messages w ++ [msg])))
                 = S (length (pending_messages w))).
  { cbn. rewrite length_app. cbn. lia. }
  destruct (str_eqb (type msg) (str "superChat") || str_eqb (type msg) (str "superSticker"));
    [|destruct (is_moderator msg); [|destruct (is_verified msg)]];
    cbn; eexists; (split; [reflexivity|]);
    repeat (split; [first [reflexivity | exact Hlen]|]);
    intros Ha Ht Hw; rewrite Ha, Ht, Hw; split; reflexivity.
Qed.

Lemma on_message_realtime_witness :
  let ui := {| chat_mode := str "Standard (read messages)";
               summary_interval := 5; quick_summary_count_sb := 50 |} in
  let msg := {| author := str "a"; text := str "hi"; type := str "textMessage";
                is_moderator := false; is_verified := false |} in
  let w := {| pending_messages := []; last_summary_ts := 0%Q; reader := None |} in
  exists tr,
    _on_message ui msg w = (Ok tt, set_pending w [msg], tr)
    /\ narrations tr = [str "a: hi"]
    /\ summarize_batches tr = [].
Proof.
  intros ui msg w.
  destruct (on_message_realtime ui msg w eq_refl) as [tr [E [Hn [Hs _]]]].
  exists tr. split; [exact E|]. split; [exact Hn | exact Hs].
Defined.

Lemma maybe_do_summary_fires ui env now now' w :
  chat_mode ui = CHAT_MODE_SUMMARIES ->
  due ui now w -> pending_messages w <> [] ->
  exists summary calls,
    _maybe_do_summary ui env now now' w
    = (Ok tt, set_last_summary_ts (set_pending w []) now',
       [PlaySound (str "summary"); Summarize (pending_messages w)] ++ calls
       ++ [ChatViewAppend (str "[Summary]" ++ [newline] ++ summary ++ [newline]);
           Speak summary])
    /\ (calls = [] \/ calls = [ProviderCall (openai_api_key env)
                                  (full_prompt (pending_messages w))]).
Proof.
  intros Hmode Hdue Hne. unfold _maybe_do_summary.
  rewrite Hmode, str_eqb_refl. cbn [negb].
  unfold due in Hdue. apply Qle_bool_iff in Hdue.
  destruct (summarize_run env (pending_messages w)
              (set_last_summary_ts (set_pending w []) now'))
    as [out [tr [E [Htr _]]]].
  exists out, tr. split; [|exact Htr].
  unfold bind at 1. unfold get at 1. cbn iota beta. rewrite Hdue.
  destruct (pending_messages w) as [|m ms] eqn:Hp; [congruence|].
  cbn [andb]. unfold bind, emit, put. rewrite E. cbn.
  reflexivity.
Qed.

Lemma maybe_do_summary_idle ui env now now' w :
  ~ (chat_mode ui = CHAT_MODE_SUMMARIES /\ due ui now w /\ pending_messages w <> []) ->
  _maybe_do_summary ui env now now' w = (Ok tt, w, []).
Proof.
  intros H. unfold _maybe_do_summary.
  destruct (str_eqb (chat_mode ui) CHAT_MODE_SUMMARIES) eqn:Hm; [|reflexivity].
  apply str_eqb_eq in Hm. cbn [negb].
  unfold bind at 1. unfold get at 1. cbn iota beta.
  destruct (Qle_bool _ _) eqn:Hd.
  - destruct (pending_messages w) as [|m ms] eqn:Hp; [reflexivity|].
    exfalso. apply H. split; [exact Hm|]. split; [|discriminate].
    unfold due. apply Qle_bool_iff. exact Hd.
  - reflexivity.
Qed.

Lemma due_dec ui now w : due ui now w \/ ~ due ui now w.
Proof.
  unfold due. destruct (Qlt_le_dec (now - last_summary_ts w)
                          (inject_Z (Z.max 1 (summary_interval ui) * 60))) as [H|H].
  - right. apply Qlt_not_le, H.
  - left. exact H.
Qed.

(** C2. In periodic mode the timer check flushes if and only if the elapsed
    time since the baseline is at least the interval (at least one minute)
    and the buffer is non-empty.  A flush empties the buffer, stores the new
    clock reading as the baseline and hands the whole former buffer to the
    summarizer exactly once; otherwise, in particular on an empty buffer,
    nothing is emitted and the state, baseline included, is unchanged. *)
Theorem maybe_do_summary_periodic (ui : Widgets) (env : Env) (now now' : Q)
    (w : MainWindow) :
  chat_mode ui = CHAT_MODE_SUMMARIES ->
  exists w' tr,
    _maybe_do_summary ui env now now' w = (Ok tt, w', tr)
    /\ (1 <= Z.max 1 (summary_interval ui))%Z
    /\ (summarize_batches tr <> [] <-> due ui now w /\ pending_messages w <> [])
    /\ (due ui now w /\ pending_messages w <> [] ->
        summarize_batches tr = [pending_messages w]
        /\ pending_messages w' = []
        /\ last_summary_ts w' = now'
        /\ reader w' = reader w)
    /\ (~ (due ui now w /\ pending_messages w <> []) -> w' = w /\ tr = [])
    /\ (pending_messages w = [] -> w' = w /\ tr = []).
Proof.
  intros Hmode.
  assert (Hdec : (due ui now w /\ pending_messages w <> [])
                 \/ ~ (due ui now w /\ pending_messages w <> [])).
  { destruct (due_dec ui now w) as [Hd|Hd]; [|right; tauto].
    destruct (pending_messages w); [right; intros [_ H]; congruence|].
    left. split; [exact Hd | discriminate]. }
  destruct Hdec as [[Hd Hne]|Hno].
  - destruct (maybe_do_summary_fires ui env now now' w Hmode Hd Hne)
      as [summary [calls [E Hc]]].
    eexists _, _. split; [exact E|].
    assert (Hb : summarize_batches
                   ([PlaySound (str "summary"); Summarize (pending_messages w)] ++ calls
                    ++ [ChatViewAppend (str "[Summary]" ++ [newline] ++ summary ++ [newline]);
                        Speak summary]) = [pending_messages w]).
    { destruct Hc as [->| ->]; reflexivity. }
    split; [lia|]. split; [|split; [|split]].
    + rewrite Hb. split; [auto | discriminate].
    + intros _. rewrite Hb. cbn. auto.
    + tauto.
    + congruence.
  - rewrite maybe_do_summary_idle by tauto.
    exists w, []. split; [reflexivity|]. split; [lia|].
    split; [|split; [|split]].
    + cbn. split; [congruence | tauto].
    + tauto.
    + auto.
    + auto.
Qed.

Lemma maybe_do_summary_periodic_witness :
  let ui := {| chat_mode := str "Summaries (periodic)";
               summary_interval := 1; quick_summary_count_sb := 50 |} in
  let env := {| openai := false; openai_api_key := []; completion := Ok None |} in
  let m := fun a => {| author := a; text := str "hi"; type := str "textMessage";
                       is_moderator := false; is_verified := false |} in
  let w := {| pending_messages := [m (str "a"); m (str "b"); m (str "c")];
              last_summary_ts := 1000%Q; reader := None |} in
  exists w' tr,
    _maybe_do_summary ui env 1061%Q 1062%Q w = (Ok tt, w', tr)
    /\ summarize_batches tr = [[m (str "a"); m (str "b"); m (str "c")]]
    /\ pending_messages w' = []
    /\ last_summary_ts w' = 1062%Q.
Proof.
  intros ui env m w.
  destruct (maybe_do_summary_periodic ui env 1061%Q 1062%Q w eq_refl)
    as [w' [tr [E [_ [_ [H _]]]]]].
  exists w', tr. split; [exact E|].
  assert (Hd : due ui 1061%Q w /\ pending_messages w <> []).
  { split; [|discriminate]. unfold due. apply Qle_bool_iff. reflexivity. }
  destruct (H Hd) as [Hb [Hp [Ht _]]]. auto.
Defined.

Lemma slice_from_recent {A} (K : Z) (l : list A) :
  (0 < K)%Z ->
  slice_from (- K) l = skipn (length l - Nat.min (Z.to_nat K) (length l)) l.
Proof.
  intros HK. unfold slice_from.
  destruct (Z.ltb_spec (- K) 0) as [_|H]; [|lia].
  f_equal. lia.
Qed.

Lemma recent_is_suffix {A} (k : nat) (l : list A) :
  let batch := skipn (length l - Nat.min k (length l)) l in
  l = firstn (length l - Nat.min k (length l)) l ++ batch
  /\ length batch = Nat.min k (length l).
Proof.
  cbn zeta. split.
  - symmetry. apply firstn_skipn.
  - rewrite length_skipn. lia.
Qed.

(** C3. With the count K in its range 5..500, a quick summary on a
    non-empty buffer hands the summarizer, once, the last min(K, length)
    messages of the buffer in arrival order, and leaves the window state
    (buffer and baseline) as it was; on an empty buffer it only logs and
    narrates the fixed text and never calls the summarizer. *)
Theorem on_quick_summary_recent (ui : Widgets) (env : Env) (w : MainWindow) :
  (quick_summary_count_min <= quick_summary_count_sb ui <= quick_summary_count_max)%Z ->
  let K := Z.to_nat (quick_summary_count_sb ui) in
  let buf := pending_messages w in
  (quick_summary_count_min <= DEFAULT_quick_summary_count <= quick_summary_count_max)%Z
  /\ exists tr,
    _on_quick_summary ui env w = (Ok tt, w, tr)
    /\ (buf <> [] ->
        exists batch older,
          summarize_batches tr = [batch]
          /\ buf = older ++ batch
          /\ length batch = Nat.min K (length buf))
    /\ (buf = [] ->
        tr = [ChatViewAppend (str "[Quick Summary] No recent messages to summarize.");
              Speak (str "No recent messages to summarize.")]
        /\ summarize_batches tr = []
        /\ provider_calls tr = []).
Proof.
  intros HK K buf. unfold quick_summary_count_min, quick_summary_count_max in HK.
  split; [split; discriminate|].
  unfold _on_quick_summary.
  unfold bind at 1. unfold get at 1. cbn iota beta.
  subst buf. destruct (pending_messages w) as [|m ms] eqn:Hp.
  - eexists. split; [reflexivity|]. split; [congruence|].
    intros _. repeat split.
  - rewrite slice_from_recent by lia. fold K.
    set (batch := skipn (length (m :: ms) - Nat.min K (length (m :: ms))) (m :: ms)).
    destruct (summarize_run env batch w) as [out [tr [E [Htr _]]]].
    eexists. split.
    { unfold bind, emit, try_except, ret. rewrite E. cbn. reflexivity. }
    split; [|discriminate].
    intros _. exists batch, (firstn (length (m :: ms) - Nat.min K (length (m :: ms))) (m :: ms)).
    split.
    { destruct Htr as [->| ->]; reflexivity. }
    apply (recent_is_suffix K (m :: ms)).
Qed.

Lemma on_quick_summary_recent_witness :
  let ui := {| chat_mode := str "Standard (read messages)";
               summary_interval := 5; quick_summary_count_sb := 5 |} in
  let env := {| openai := false; openai_api_key := []; completion := Ok None |} in
  let m := fun a => {| author := a; text := str "hi"; type := str "textMessage";
                       is_moderator := false; is_verified := false |} in
  let buf := [m (str "a"); m (str "b"); m (str "c"); m (str "d");
              m (str "e"); m (str "f"); m (str "g")] in
  let w := {| pending_messages := buf; last_summary_ts := 1000%Q; reader := None |} in
  exists tr,
    _on_quick_summary ui env w = (Ok tt, w, tr)
    /\ exists batch older,
         summarize_batches tr = [batch] /\ buf = older ++ batch /\ length batch = 5.
Proof.
  intros ui env m buf w.
  destruct (on_quick_summary_recent ui env w
              ltac:(unfold quick_summary_count_min, quick_summary_count_max; simpl; lia))
    as [_ [tr [E [H _]]]].
  exists tr. split; [exact E|].
  apply H. discriminate.
Defined.

Lemma run_ops_app ops1 ops2 w :
  run_ops (ops1 ++ ops2) w
  = let '(w1, log1) := run_ops ops1 w in
    let '(w2, log2) := run_ops ops2 w1 in
    (w2, log1 ++ log2).
Proof.
  revert w. induction ops1 as [|op ops1 IH]; intros w; simpl.
  - destruct (run_ops ops2 w). reflexivity.
  - destruct (handler op w) as [[r w1] tr]. rewrite IH.
    destruct (run_ops ops1 w1) as [w2 log1].
    destruct (run_ops ops2 w2) as [w3 log2]. reflexivity.
Qed.

(** What one handler call does to the buffer: it appends its message, or
    it hands the whole buffer to the summarizer and empties it, or it
    leaves the buffer alone. *)
Lemma handler_buffer op w :
  exists r w1 tr,
    handler op w = (r, w1, tr)
    /\ pending_messages w ++ appended [op]
       = concat (periodic_batches [(op, tr)]) ++ pending_messages w1
    /\ (periodic_batches [(op, tr)] = []
        \/ periodic_batches [(op, tr)] = [pending_messages w]
           /\ pending_messages w <> [] /\ pending_messages w1 = []).
Proof.
  destruct op as [ui msg | ui env | ui env now now'].
  - cbn [handler].
    assert (E : exists tr, _on_message ui msg w
                           = (Ok tt, set_pending w (pending_messages w ++ [msg]), tr)).
    { unfold _on_message.
      destruct (str_eqb (chat_mode ui) CHAT_MODE_STANDARD);
        [destruct (str_eqb (type msg) (str "superChat") || str_eqb (type msg) (str "superSticker"));
         [|destruct (is_moderator msg); [|destruct (is_verified msg)]]|];
        cbn; eexists; reflexivity. }
    destruct E as [tr E].
    exists (Ok tt), (set_pending w (pending_messages w ++ [msg])), tr.
    split; [exact E|].
    split; [reflexivity | left; reflexivity].
  - cbn [handler].
    assert (E : exists r tr, _on_quick_summary ui env w = (r, w, tr)).
    { unfold _on_quick_summary. unfold bind at 1. unfold get at 1. cbn iota beta.
      destruct (pending_messages w) as [|m ms]; [eexists _, _; reflexivity|].
      destruct (summarize_run env (slice_from (- quick_summary_count_sb ui) (m :: ms)) w)
        as [out [tr [E _]]].
      unfold bind, emit, try_except, ret. rewrite E. cbn. eexists _, _; reflexivity. }
    destruct E as [r [tr E]]. exists r, w, tr. split; [exact E|].
    split; [cbn; rewrite app_nil_r; reflexivity | left; reflexivity].
  - cbn [handler].
    assert (Hdec : (chat_mode ui = CHAT_MODE_SUMMARIES /\ due ui now w
                    /\ pending_messages w <> [])
                   \/ ~ (chat_mode ui = CHAT_MODE_SUMMARIES /\ due ui now w
                         /\ pending_messages w <> [])).
    { destruct (str_eqb (chat_mode ui) CHAT_MODE_SUMMARIES) eqn:Hm.
      - apply str_eqb_eq in Hm. destruct (due_dec ui now w) as [Hd|Hd]; [|right; tauto].
        destruct (pending_messages w); [right; intros [_ [_ H]]; congruence|].
        left. repeat split; [exact Hm | exact Hd | discriminate].
      - right. intros [Hm' _]. apply str_eqb_eq in Hm'. congruence. }
    destruct Hdec as [[Hm [Hd Hne]]|Hno].
    + destruct (maybe_do_summary_fires ui env now now' w Hm Hd Hne)
        as [summary [calls [E Hc]]].
      eexists _, _, _. split; [exact E|].
      assert (Hb : periodic_batches
                [(OnTimer ui env now now',
                  [PlaySound (str "summary"); Summarize (pending_messages w)] ++ calls
                  ++ [ChatViewAppend (str "[Summary]" ++ [newline] ++ summary ++ [newline]);
                      Speak summary])] = [pending_messages w]).
      { destruct Hc as [->| ->]; reflexivity. }
      rewrite Hb. split; [cbn; rewrite !app_nil_r; reflexivity|].
      right. auto.
    + rewrite maybe_do_summary_idle by exact Hno.
      exists (Ok tt), w, []. split; [reflexivity|].
      split; [cbn; rewrite app_nil_r; reflexivity | left; reflexivity].
Qed.

Lemma periodic_batches_cons op tr log :
  periodic_batches ((op, tr) :: log) = periodic_batches [(op, tr)] ++ periodic_batches log.
Proof.
  unfold periodic_batches. cbn [flat_map]. rewrite app_nil_r. reflexivity.
Qed.

Lemma appended_cons op ops : appended (op :: ops) = appended [op] ++ appended ops.
Proof.
  unfold appended. cbn [flat_map]. rewrite app_nil_r. reflexivity.
Qed.

Lemma run_ops_conserves ops w :
  pending_messages w ++ appended ops
  = concat (periodic_batches (snd (run_ops ops w)))
    ++ pending_messages (fst (run_ops ops w)).
Proof.
  revert w. induction ops as [|op ops IH]; intros w.
  - cbn. rewrite app_nil_r. reflexivity.
  - destruct (handler_buffer op w) as [r [w1 [tr [E [Hcons _]]]]].
    cbn [run_ops]. rewrite E. specialize (IH w1).
    destruct (run_ops ops w1) as [w2 log]. cbn [fst snd] in *.
    rewrite (periodic_batches_cons op tr log), concat_app.
    rewrite appended_cons, app_assoc, Hcons, <- app_assoc, IH.
    rewrite app_assoc. reflexivity.
Qed.

Lemma periodic_batches_app log1 log2 :
  periodic_batches (log1 ++ log2) = periodic_batches log1 ++ periodic_batches log2.
Proof.
  unfold periodic_batches. apply flat_map_app.
Qed.

(** C1. For every sequence of handler calls on the buffer (appends, quick
    summaries, timer checks) from any window state: the messages held at
    the start followed by the appended ones are exactly the periodic
    batches, in order, followed by what is still buffered, so no message is
    lost and none is delivered twice; each flush hands over the whole
    buffer as it is at that call and leaves it empty; the batches of a
    prefix of the calls are not changed by the calls that follow, so a
    later append is in no earlier batch; and when the messages are
    pairwise distinct, no message occurs in two batches. *)
Theorem drainAll_no_loss_no_duplication (ops : list Op) (w : MainWindow) :
  let w' := fst (run_ops ops w) in
  let log := snd (run_ops ops w) in
  pending_messages w ++ appended ops
  = concat (periodic_batches log) ++ pending_messages w'
  /\ (forall op w0, exists r w1 tr,
        handler op w0 = (r, w1, tr)
        /\ (periodic_batches [(op, tr)] = []
            \/ periodic_batches [(op, tr)] = [pending_messages w0]
               /\ pending_messages w0 <> [] /\ pending_messages w1 = []))
  /\ (forall later,
        periodic_batches (snd (run_ops (ops ++ later) w))
        = periodic_batches log ++ periodic_batches (snd (run_ops later w')))
  /\ (NoDup (pending_messages w ++ appended ops) ->
      NoDup (concat (periodic_batches log) ++ pending_messages w')).
Proof.
  intros w' log. split; [apply run_ops_conserves|]. split; [|split].
  - intros op w0. destruct (handler_buffer op w0) as [r [w1 [tr [E [_ H]]]]].
    exists r, w1, tr. auto.
  - intros later. rewrite run_ops_app. subst w' log.
    destruct (run_ops ops w) as [w1 log1]. cbn [fst snd].
    destruct (run_ops later w1) as [w2 log2]. cbn [fst snd].
    apply periodic_batches_app.
  - intros H. subst w' log. rewrite <- run_ops_conserves. exact H.
Qed.

Lemma drainAll_no_loss_no_duplication_witness :
  let std := {| chat_mode := str "Summaries (periodic)";
                summary_interval := 1; quick_summary_count_sb := 50 |} in
  let env := {| openai := false; openai_api_key := []; completion := Ok None |} in
  let m := fun a => {| author := a; text := str "hi"; type := str "textMessage";
                       is_moderator := false; is_verified := false |} in
  let w := {| pending_messages := []; last_summary_ts := 0%Q; reader := None |} in
  let ops := [OnMessage std (m (str "a")); OnMessage std (m (str "b"));
              OnTimer std env 61%Q 61%Q; OnMessage std (m (str "c"));
              OnQuickSummary std env; OnTimer std env 100%Q 100%Q;
              OnTimer std env 125%Q 125%Q] in
  periodic_batches (snd (run_ops ops w)) = [[m (str "a"); m (str "b")]; [m (str "c")]]
  /\ NoDup (concat (periodic_batches (snd (run_ops ops w)))
            ++ pending_messages (fst (run_ops ops w))).
Proof.
  intros std env m w ops. split; [reflexivity|].
  apply (drainAll_no_loss_no_duplication ops w).
  repeat constructor; simpl; intuition discriminate.
Defined.

(* ===================================================================== *)
(** * ChatReader: theorems *)
(* ===================================================================== *)

Lemma run_steps_app w stop n m c :
  run_steps w stop (n + m) c
  = let '(c1, tr1) := run_steps w stop n c in
    let '(c2, tr2) := run_steps w stop m c1 in
    (c2, tr1 ++ tr2).
Proof.
  revert c. induction n as [|n IH]; intros c; cbn [Nat.add run_steps].
  - destruct (run_steps w stop m c). reflexivity.
  - destruct (step w stop c) as [c1 tr1]. rewrite IH.
    destruct (run_steps w stop n c1) as [c2 tr2].
    destruct (run_steps w stop m c2) as [c3 tr3].
    rewrite app_assoc. reflexivity.
Qed.

Lemma run_steps_stopped w stop n t :
  run_steps w stop n (Stopped, t) = ((Stopped, t), []).
Proof.
  induction n as [|n IH]; cbn [run_steps step]; [reflexivity|].
  rewrite IH. reflexivity.
Qed.

Lemma run_steps_S w stop n c :
  run_steps w stop (S n) c
  = (fst (run_steps w stop n (fst (step w stop c))),
     snd (step w stop c) ++ snd (run_steps w stop n (fst (step w stop c)))).
Proof.
  cbn [run_steps]. destruct (step w stop c) as [c1 tr1]. cbn [fst snd].
  destruct (run_steps w stop n c1). reflexivity.
Qed.

Lemma connect_times_app tr1 tr2 :
  connect_times (tr1 ++ tr2) = connect_times tr1 ++ connect_times tr2.
Proof. apply flat_map_app. Qed.

Lemma backoff_times_app tr1 tr2 :
  backoff_times (tr1 ++ tr2) = backoff_times tr1 ++ backoff_times tr2.
Proof. apply flat_map_app. Qed.

Lemma stopped_times_app tr1 tr2 :
  stopped_times (tr1 ++ tr2) = stopped_times tr1 ++ stopped_times tr2.
Proof. apply flat_map_app. Qed.

Lemma at_time_app t a b : at_time t (a ++ b) = at_time t a ++ at_time t b.
Proof. apply map_app. Qed.

Lemma items_no_connect t items :
  connect_times
    (at_time t (map (fun c => Emit (message_received (normalize_item c))) items)) = []
  /\ backoff_times
       (at_time t (map (fun c => Emit (message_received (normalize_item c))) items)) = []
  /\ stopped_times
       (at_time t (map (fun c => Emit (message_received (normalize_item c))) items)) = [].
Proof.
  induction items as [|c items [IH1 [IH2 IH3]]]; cbn; auto.
Qed.

Lemma items_no_sleep t items t0 d :
  ~ In (t0, Sleep d)
      (at_time t (map (fun c => Emit (message_received (normalize_item c))) items)).
Proof.
  induction items as [|c items IH]; cbn; [tauto|].
  intros [H|H]; [discriminate | exact (IH H)].
Qed.


(* ===================================================================== *)
(** * ChatReader: stop requests, with the duration of library calls *)
(* ===================================================================== *)

Lemma run_steps_timed_S lat w stop n c :
  run_steps_timed lat w stop (S n) c
  = (fst (run_steps_timed lat w stop n (fst (step_timed lat w stop c))),
     snd (step_timed lat w stop c)
     ++ snd (run_steps_timed lat w stop n (fst (step_timed lat w stop c)))).
Proof.
  cbn [run_steps_timed]. destruct (step_timed lat w stop c) as [c1 tr1]. cbn [fst snd].
  destruct (run_steps_timed lat w stop n c1). reflexivity.
Qed.

Lemma run_steps_timed_stopped lat w stop n t :
  run_steps_timed lat w stop n (Stopped, t) = ((Stopped, t), []).
Proof.
  induction n as [|n IH]; cbn [run_steps_timed step_timed step]; [reflexivity|].
  rewrite IH. reflexivity.
Qed.

Lemma step_timed_no_delay w stop c : step_timed no_delay w stop c = step w stop c.
Proof.
  destruct c as [st t].
  destruct st as [|k|k chat j|k|d j|]; cbn [step_timed step no_delay create_ms
    is_alive_ms get_ms terminate_ms]; rewrite ?N.add_0_r; reflexivity.
Qed.

Lemma run_steps_timed_no_delay w stop n :
  forall c, run_steps_timed no_delay w stop n c = run_steps w stop n c.
Proof.
  induction n as [|n IH]; intros c; [reflexivity|].
  cbn [run_steps_timed run_steps]. rewrite step_timed_no_delay.
  destruct (step w stop c) as [c1 tr1]. rewrite IH. reflexivity.
Qed.

Section TimedStop.

Variable lat : Timing.
Variable w : World.
Variable s : N.

Lemma reach_step_timed n c :
  fst (fst (run_steps_timed lat w (Some s) n (fst (step_timed lat w (Some s) c)))) = Stopped ->
  fst (fst (run_steps_timed lat w (Some s) (S n) c)) = Stopped.
Proof. rewrite run_steps_timed_S. cbn [fst]. auto. Qed.

Lemma reaches_stopped_timed m :
  forall st t,
    is_pytchat_state st = true -> N.to_nat (s - t) <= m ->
    exists n, fst (fst (run_steps_timed lat w (Some s) n (st, t))) = Stopped.
Proof.
  induction m as [m IH] using lt_wf_ind. intros st t Hst Hm.
  assert (Hlater : forall st' t',
             is_pytchat_state st' = true -> (t < s)%N -> (t + 500 <= t')%N ->
             exists n, fst (fst (run_steps_timed lat w (Some s) n (st', t'))) = Stopped).
  { intros st' t' Hst' Hlt Hadv.
    apply (IH (N.to_nat (s - t'))); [lia | exact Hst' | lia]. }
  assert (HC : forall k, (s <= t)%N -> exists n,
             fst (fst (run_steps_timed lat w (Some s) n (Connecting k, t))) = Stopped).
  { intros k Hset. exists 1. cbn [run_steps_timed step_timed is_set].
    apply N.leb_le in Hset. rewrite Hset. reflexivity. }
  assert (HR : forall k t', (t <= t')%N -> exists n,
             fst (fst (run_steps_timed lat w (Some s) n (ReconnectWait k, t'))) = Stopped).
  { intros k t' Hle.
    destruct (N.leb_spec s t') as [Hset|Hns].
    - exists 2. apply reach_step_timed. cbn [step_timed is_set].
      apply N.leb_le in Hset. rewrite Hset. cbn [fst].
      cbn [run_steps_timed step_timed is_set]. rewrite Hset. reflexivity.
    - destruct (Hlater (Connecting k) (t' + BACKOFF_MS)%N eq_refl) as [n Hn];
        [lia | unfold BACKOFF_MS; lia |].
      exists (S n). apply reach_step_timed. cbn [step_timed is_set].
      apply N.leb_gt in Hns. rewrite Hns. exact Hn. }
  assert (HS : forall k chat j t', (t <= t')%N -> exists n,
             fst (fst (run_steps_timed lat w (Some s) n (Streaming k chat j, t'))) = Stopped).
  { intros k chat j t' Hle.
    destruct (is_alive chat j) as [[|]|e] eqn:Ha.
    - destruct (N.leb_spec s (t' + is_alive_ms lat k j)) as [Hset|Hns].
      + exists 1. cbn [run_steps_timed step_timed is_set].
        apply N.leb_le in Hset. rewrite Ha, Hset. reflexivity.
      + destruct (get_items chat j) as [items|e] eqn:Hg.
        * destruct (Hlater (Streaming k chat (S j))
                      (t' + is_alive_ms lat k j + get_ms lat k j + POLL_MS)%N eq_refl)
            as [n Hn]; [lia | unfold POLL_MS; lia |].
          exists (S n). apply reach_step_timed. cbn [step_timed is_set].
          apply N.leb_gt in Hns. rewrite Ha, Hns, Hg. exact Hn.
        * destruct (HR k (t' + is_alive_ms lat k j + get_ms lat k j
                          + terminate_ms lat k)%N) as [n Hn]; [lia|].
          exists (S n). apply reach_step_timed. cbn [step_timed is_set].
          apply N.leb_gt in Hns. rewrite Ha, Hns, Hg. exact Hn.
    - destruct (N.leb_spec s (t' + is_alive_ms lat k j)) as [Hset|Hns].
      + exists 1. cbn [run_steps_timed step_timed is_set].
        apply N.leb_le in Hset. rewrite Ha, Hset. reflexivity.
      + destruct (HR k (t' + is_alive_ms lat k j + terminate_ms lat k)%N) as [n Hn]; [lia|].
        exists (S n). apply reach_step_timed. cbn [step_timed is_set].
        apply N.leb_gt in Hns. rewrite Ha, Hns. exact Hn.
    - destruct (HR k (t' + is_alive_ms lat k j + terminate_ms lat k)%N) as [n Hn]; [lia|].
      exists (S n). apply reach_step_timed. cbn [step_timed].
      rewrite Ha. exact Hn. }
  destruct st as [|k|k chat j|k|d j|]; try discriminate Hst.
  - destruct (N.leb_spec s t) as [Hset|Hns]; [apply HC; exact Hset|].
    destruct (create w k) as [chat|e] eqn:Hc.
    + destruct (HS (S k) chat 0 (t + create_ms lat k)%N) as [n Hn]; [lia|].
      exists (S n). apply reach_step_timed. cbn [step_timed is_set].
      apply N.leb_gt in Hns. rewrite Hns, Hc. exact Hn.
    + destruct (HR (S k) (t + create_ms lat k)%N) as [n Hn]; [lia|].
      exists (S n). apply reach_step_timed. cbn [step_timed is_set].
      apply N.leb_gt in Hns. rewrite Hns, Hc. exact Hn.
  - apply HS. lia.
  - apply HR. lia.
Qed.

Variable L : N.
Hypothesis HL : calls_within lat L.
Hypothesis Hpytchat : pytchat w = true.

Lemma step_timed_timely st t :
  timely s L (st, t) ->
  timely s L (fst (step_timed lat w (Some s) (st, t)))
  /\ (forall t1, In t1 (connect_times (snd (step_timed lat w (Some s) (st, t)))) ->
      (t1 < s)%N)
  /\ (forall t1, In t1 (backoff_times (snd (step_timed lat w (Some s) (st, t)))) ->
      (t1 < s)%N).
Proof.
  destruct HL as [Hc [Ha [Hg Ht]]].
  unfold timely, stop_delay_bound. cbn [fst snd].
  assert (Hleaf : forall (P : Prop) (tr : list (N * Action)),
             P ->
             (forall t1, In t1 (connect_times tr) -> (t1 < s)%N) ->
             (forall t1, In t1 (backoff_times tr) -> (t1 < s)%N) ->
             P /\ (forall t1, In t1 (connect_times tr) -> (t1 < s)%N)
               /\ (forall t1, In t1 (backoff_times tr) -> (t1 < s)%N)) by tauto.
  destruct st as [|k|k chat j|k|d j|]; intros Hinv; cbn [step_timed step is_set].
  - rewrite Hpytchat. cbn [fst snd]. subst t.
    apply Hleaf; [lia | cbn; tauto | cbn; tauto].
  - specialize (Hc k). destruct (N.leb_spec s t) as [Hset|Hns].
    + cbn [fst snd]. apply Hleaf; [lia | cbn; tauto | cbn; tauto].
    + destruct (create w k); cbn [fst snd]; apply Hleaf; try lia;
        cbn; try tauto; intros t1 [<-|[]]; exact Hns.
  - specialize (Ha k j). specialize (Hg k j). specialize (Ht k).
    destruct (is_alive chat j) as [[|]|e]; cbn [andb].
    + destruct (N.leb_spec s (t + is_alive_ms lat k j)) as [Hset|Hns]; cbn [negb].
      * cbn [fst snd]. apply Hleaf; [lia | cbn; tauto | cbn; tauto].
      * destruct (get_items chat j) as [items|e]; cbn [fst snd].
        -- rewrite at_time_app, connect_times_app, backoff_times_app.
           destruct (items_no_connect (t + is_alive_ms lat k j + get_ms lat k j) items)
             as [-> [-> _]].
           apply Hleaf; [unfold POLL_MS; lia | cbn; tauto | cbn; tauto].
        -- apply Hleaf; [lia | cbn; tauto | cbn; tauto].
    + destruct (N.leb_spec s (t + is_alive_ms lat k j)) as [Hset|Hns];
        cbn [fst snd]; apply Hleaf; try lia; cbn; tauto.
    + cbn [fst snd]. apply Hleaf; [lia | cbn; tauto | cbn; tauto].
  - destruct (N.leb_spec s t) as [Hset|Hns]; cbn [fst snd].
    + apply Hleaf; [lia | cbn; tauto | cbn; tauto].
    + apply Hleaf; [unfold BACKOFF_MS; lia | cbn; tauto |].
      cbn. intros t1 [<-|[]]. exact Hns.
  - contradiction.
  - cbn [fst snd]. apply Hleaf; [lia | cbn; tauto | cbn; tauto].
Qed.

Lemma run_steps_timed_timely n :
  forall c,
    timely s L c ->
    timely s L (fst (run_steps_timed lat w (Some s) n c))
    /\ (forall t1, In t1 (connect_times (snd (run_steps_timed lat w (Some s) n c))) ->
        (t1 < s)%N)
    /\ (forall t1, In t1 (backoff_times (snd (run_steps_timed lat w (Some s) n c))) ->
        (t1 < s)%N).
Proof.
  induction n as [|n IH]; intros [st t] Hinv; [cbn; tauto|].
  rewrite run_steps_timed_S. cbn [fst snd].
  destruct (step_timed_timely st t Hinv) as [H1 [H2 H3]].
  destruct (IH _ H1) as [H4 [H5 H6]].
  split; [exact H4|].
  split; intros t1; rewrite ?connect_times_app, ?backoff_times_app, in_app_iff;
    intros [H|H]; auto.
Qed.

Lemma stop_in_backoff_waits_full_sleep k t :
  (t < s)%N -> (s <= t + 10000)%N ->
  run_steps_timed lat w (Some s) 2 (ReconnectWait k, t)
  = ((Stopped, (t + 10000)%N),
     [(t, Sleep 10000); ((t + 10000)%N, Emit stopped)]).
Proof.
  intros Hlt Hle. apply N.leb_gt in Hlt. apply N.leb_le in Hle.
  rewrite run_steps_timed_S. cbn [step_timed is_set]. rewrite Hlt. cbn [fst snd].
  rewrite run_steps_timed_S. cbn [step_timed is_set]. unfold BACKOFF_MS.
  rewrite Hle. reflexivity.
Qed.

Lemma stop_while_streaming_ends_poll k chat j t items :
  is_alive chat j = Ok true ->
  get_items chat j = Ok items ->
  (t + is_alive_ms lat k j < s)%N ->
  (s <= t + is_alive_ms lat k j + get_ms lat k j + 500)%N ->
  exists n tr,
    run_steps_timed lat w (Some s) n (Streaming k chat j, t)
    = ((Stopped,
        (t + is_alive_ms lat k j + get_ms lat k j + 500
         + is_alive_ms lat k (S j) + terminate_ms lat k)%N), tr).
Proof.
  intros Ha Hg Hlt Hle.
  set (t3 := (t + is_alive_ms lat k j + get_ms lat k j + 500)%N) in *.
  assert (Hset : is_set (Some s) (t3 + is_alive_ms lat k (S j)) = true).
  { cbn. apply N.leb_le. lia. }
  assert (Hset' : is_set (Some s)
                    (t3 + is_alive_ms lat k (S j) + terminate_ms lat k) = true).
  { cbn. apply N.leb_le. lia. }
  assert (Hns : is_set (Some s) (t + is_alive_ms lat k j) = false).
  { cbn. apply N.leb_gt. exact Hlt. }
  destruct (is_alive chat (S j)) as [[|]|e] eqn:Ha'.
  - exists 2. rewrite run_steps_timed_S. cbn [step_timed].
    rewrite Ha, Hns, Hg. cbn [andb negb fst snd]. fold t3.
    rewrite run_steps_timed_S. cbn [step_timed]. unfold POLL_MS.
    fold t3. rewrite Ha', Hset. cbn [andb negb fst snd run_steps_timed].
    eexists. reflexivity.
  - exists 2. rewrite run_steps_timed_S. cbn [step_timed].
    rewrite Ha, Hns, Hg. cbn [andb negb fst snd]. fold t3.
    rewrite run_steps_timed_S. cbn [step_timed]. unfold POLL_MS.
    fold t3. rewrite Ha', Hset. cbn [andb negb fst snd run_steps_timed].
    eexists. reflexivity.
  - exists 4. rewrite run_steps_timed_S. cbn [step_timed].
    rewrite Ha, Hns, Hg. cbn [andb negb fst snd]. fold t3.
    rewrite run_steps_timed_S. cbn [step_timed]. unfold POLL_MS.
    fold t3. rewrite Ha'. cbn [fst snd].
    rewrite run_steps_timed_S. cbn [step_timed]. rewrite Hset'. cbn [fst snd].
    rewrite run_steps_timed_S. cbn [step_timed]. rewrite Hset'.
    cbn [fst snd run_steps_timed]. eexists. reflexivity.
Qed.

Lemma stop_before_alive_test_returns k chat j t :
  (s <= t + is_alive_ms lat k j)%N ->
  exists n tr,
    run_steps_timed lat w (Some s) n (Streaming k chat j, t)
    = ((Stopped, (t + is_alive_ms lat k j + terminate_ms lat k)%N), tr).
Proof.
  intros Hle.
  assert (Hset : is_set (Some s) (t + is_alive_ms lat k j) = true).
  { cbn. apply N.leb_le. exact Hle. }
  assert (Hset' : is_set (Some s) (t + is_alive_ms lat k j + terminate_ms lat k) = true).
  { cbn. apply N.leb_le. lia. }
  destruct (is_alive chat j) as [[|]|e] eqn:Ha.
  - exists 1. cbn [run_steps_timed step_timed]. rewrite Ha, Hset.
    cbn [andb negb]. eexists. reflexivity.
  - exists 1. cbn [run_steps_timed step_timed]. rewrite Ha, Hset.
    cbn [andb negb]. eexists. reflexivity.
  - exists 3. rewrite run_steps_timed_S. cbn [step_timed]. rewrite Ha. cbn [fst snd].
    rewrite run_steps_timed_S. cbn [step_timed]. rewrite Hset'. cbn [fst snd].
    rewrite run_steps_timed_S. cbn [step_timed]. rewrite Hset'.
    cbn [fst snd run_steps_timed]. eexists. reflexivity.
Qed.

End TimedStop.



Section NoStopRequest.

Variable w : World.

Lemma step_none_primary st t :
  is_pytchat_state st = true ->
  is_pytchat_state (fst (fst (step w None (st, t)))) = true
  /\ stopped_times (snd (step w None (st, t))) = [].
Proof.
  intros Hst.
  destruct st as [|k|k chat j|k|d j|]; try discriminate Hst; cbn [step is_set].
  - destruct (create w k); cbn; auto.
  - destruct (is_alive chat j) as [[|]|e]; cbn [andb negb]; [|cbn; auto..].
    destruct (get_items chat j) as [items|e]; [|cbn; auto].
    cbn [fst snd is_pytchat_state]. split; [reflexivity|].
    rewrite at_time_app, stopped_times_app.
    destruct (items_no_connect t items) as [_ [_ ->]]. reflexivity.
  - cbn. auto.
Qed.

Lemma run_none_primary n :
  forall c,
    is_pytchat_state (fst c) = true ->
    is_pytchat_state (fst (fst (run_steps w None n c))) = true
    /\ stopped_times (snd (run_steps w None n c)) = [].
Proof.
  induction n as [|n IH]; intros [st t] Hst; [cbn; auto|].
  rewrite run_steps_S. cbn [fst snd].
  destruct (step_none_primary st t Hst) as [H1 H2].
  destruct (IH (fst (step w None (st, t))) H1) as [H3 H4].
  split; [exact H3|]. rewrite stopped_times_app, H2, H4. reflexivity.
Qed.

Lemma streaming_until_failure m :
  forall j t k chat,
    (forall i, j <= i < j + m ->
       is_alive chat i = Ok true /\ exists items, get_items chat i = Ok items) ->
    (is_alive chat (j + m) <> Ok true \/ exists e, get_items chat (j + m) = Raise e) ->
    exists n t' tr,
      run_steps w None n (Streaming k chat j, t) = ((ReconnectWait k, t'), tr)
      /\ (t <= t')%N
      /\ connect_times tr = [] /\ backoff_times tr = [].
Proof.
  induction m as [|m IH]; intros j t k chat Hok Hfail.
  - rewrite Nat.add_0_r in Hfail. exists 1, t.
    cbn [run_steps step is_set].
    destruct (is_alive chat j) as [[|]|e] eqn:Ha; cbn [andb negb].
    + destruct Hfail as [H|[e He]]; [congruence|]. rewrite He.
      eexists. split; [reflexivity|]. cbn. split; [lia | auto].
    + eexists. split; [reflexivity|]. cbn. split; [lia | auto].
    + eexists. split; [reflexivity|]. cbn. split; [lia | auto].
  - destruct (Hok j ltac:(lia)) as [Ha [items Hg]].
    destruct (IH (S j) (t + POLL_MS)%N k chat) as [n [t' [tr [E [Ht [Hc Hb]]]]]].
    { intros i Hi. apply Hok. lia. }
    { replace (S j + m) with (j + S m) by lia. exact Hfail. }
    exists (S n), t'. rewrite run_steps_S. cbn [step is_set].
    rewrite Ha, Hg. cbn [andb negb fst snd]. rewrite E. cbn [fst snd].
    eexists. split; [reflexivity|]. split; [lia|].
    rewrite connect_times_app, backoff_times_app, Hc, Hb, !app_nil_r.
    rewrite !at_time_app, connect_times_app, backoff_times_app.
    destruct (items_no_connect t items) as [-> [-> _]]. split; reflexivity.
Qed.

Lemma failed_attempt_is_retried k t :
  attempt_fails w k ->
  exists n t' tr,
    run_steps w None n (Connecting k, t) = ((Connecting (S k), t'), tr)
    /\ (t + BACKOFF_MS <= t')%N
    /\ length (connect_times tr) = 1
    /\ length (backoff_times tr) = 1.
Proof.
  unfold attempt_fails. intros Hf.
  destruct (create w k) as [chat|e] eqn:Hc.
  - destruct Hf as [j [Hok Hfail]].
    destruct (streaming_until_failure j 0 t (S k) chat) as [n [t' [tr [E [Ht [Hct Hbt]]]]]].
    { intros i Hi. apply Hok. lia. }
    { exact Hfail. }
    exists (1 + (n + 1)), (t' + BACKOFF_MS)%N.
    rewrite run_steps_app. cbn [run_steps step is_set]. rewrite Hc.
    rewrite run_steps_app, E. cbn [run_steps step is_set].
    eexists. split; [reflexivity|]. split; [lia|].
    rewrite !connect_times_app, !backoff_times_app, Hct, Hbt. split; reflexivity.
  - exists 2, (t + BACKOFF_MS)%N. cbn [run_steps step is_set]. rewrite Hc.
    eexists. split; [reflexivity|]. split; [lia|]. split; reflexivity.
Qed.

Lemma failed_attempts_are_retried :
  (forall k, attempt_fails w k) ->
  forall n, exists fuel t tr,
    run_steps w None fuel (Connecting 0, 0%N) = ((Connecting n, t), tr)
    /\ length (connect_times tr) = n
    /\ length (backoff_times tr) = n
    /\ (N.of_nat n * BACKOFF_MS <= t)%N.
Proof.
  intros Hall n. induction n as [|n [fuel [t [tr [E [Hc [Hb Ht]]]]]]].
  - exists 0, 0%N, []. cbn. repeat split; lia.
  - destruct (failed_attempt_is_retried n t (Hall n)) as [m [t' [tr' [E' [Ht' [Hc' Hb']]]]]].
    exists (fuel + m), t', (tr ++ tr').
    rewrite run_steps_app, E, E'. split; [reflexivity|].
    rewrite connect_times_app, backoff_times_app, !length_app, Hc, Hb, Hc', Hb'.
    repeat split; lia.
Qed.

End NoStopRequest.

(** C7, as stated, fails: on a run that uses the fallback backend a
    connection exception is not retried.  With only the fallback installed
    and its connection reset, the thread reports the error and stops after
    its single connection attempt, although [stop()] is never called. *)
Lemma fallback_error_is_not_retried :
  run world_fallback_reset None 1
  = ((Stopped, 0%N),
     [(0%N, Connect);
      (0%N, Emit (error_message (str "Chat downloader error: Connection reset by peer")));
      (0%N, Emit stopped)])
  /\ ~ retried_until_stop world_fallback_reset.
Proof.
  split; [reflexivity|].
  intros H. apply (H 1). reflexivity.
Qed.

(** C7, amended. On the primary backend the run never ends unless
    [stop()] is called, and when every connection fails (an exception, or
    loss of liveness) each failure is followed by the ten-second backoff and
    a new attempt, without bound.  On the fallback backend no error is
    retried: an exception from the connection or from the iteration ends
    the session at once, with the chat-disabled error when its text
    contains "disabled" and with a generic downloader error otherwise. *)
Theorem primary_retries_fallback_stops (w : World) :
  (pytchat w = true ->
     (forall fuel,
        fst (config_after w None fuel) <> Stopped
        /\ stopped_times (snd (run w None fuel)) = [])
     /\ ((forall k, attempt_fails w k) ->
         forall n, exists fuel t tr,
           run w None fuel = ((Connecting n, t), tr)
           /\ length (connect_times tr) = n
           /\ length (backoff_times tr) = n
           /\ (N.of_nat n * BACKOFF_MS <= t)%N))
  /\ (pytchat w = false -> ChatDownloader w = true ->
      forall stop e fuel,
        get_chat w = Raise e ->
        run w stop (S fuel)
        = ((Stopped, 0%N),
           at_time 0 [Connect; Emit (error_message (downloader_error e)); Emit stopped]))
  /\ (forall stop d j t e fuel,
        d j = DRaise e ->
        run_steps w stop (S fuel) (Downloading d j, t)
        = ((Stopped, t),
           at_time t [Emit (error_message (downloader_error e)); Emit stopped]))
  /\ (forall e,
        contains (str "disabled") (lower (exn_text e)) = true ->
        downloader_error e = chat_disabled)
  /\ (forall e,
        contains (str "disabled") (lower (exn_text e)) = false ->
        downloader_error e = str "Chat downloader error: " ++ exn_text e).
Proof.
  split; [|split; [|split; [|split]]].
  - intros Hp. split.
    + intros fuel. unfold config_after, run.
      destruct fuel as [|fuel]; [cbn; split; [discriminate | reflexivity]|].
      rewrite run_steps_S. cbn [step]. rewrite Hp. cbn [fst snd app].
      destruct (run_none_primary w fuel (Connecting 0, 0%N) eq_refl) as [H1 H2].
      split; [|exact H2].
      intros E. rewrite E in H1. discriminate H1.
    + intros Hall n.
      destruct (failed_attempts_are_retried w Hall n) as [fuel [t [tr [E H]]]].
      exists (S fuel), t, tr. split; [|exact H].
      unfold run. rewrite run_steps_S. cbn [step]. rewrite Hp. cbn [fst snd app].
      rewrite E. reflexivity.
  - intros Hp Hd stop e fuel Hg. unfold run. rewrite run_steps_S.
    cbn [step]. rewrite Hp, Hd, Hg. cbn [fst snd].
    rewrite run_steps_stopped. cbn [fst snd]. rewrite app_nil_r. reflexivity.
  - intros stop d j t e fuel Hd. rewrite run_steps_S.
    cbn [step]. rewrite Hd. cbn [fst snd].
    rewrite run_steps_stopped. cbn [fst snd]. rewrite app_nil_r. reflexivity.
  - intros e H. unfold downloader_error. rewrite H. reflexivity.
  - intros e H. unfold downloader_error. rewrite H. reflexivity.
Qed.

Lemma primary_retries_fallback_stops_witness :
  (exists fuel t tr,
     run world_unreachable None fuel = ((Connecting 3, t), tr)
     /\ length (connect_times tr) = 3
     /\ length (backoff_times tr) = 3
     /\ (N.of_nat 3 * BACKOFF_MS <= t)%N)
  /\ run world_fallback_disabled None 1
     = ((Stopped, 0%N),
        [(0%N, Connect);
         (0%N, Emit (error_message (str "Live chat is disabled for this stream.")));
         (0%N, Emit stopped)]).
Proof.
  split.
  - apply (primary_retries_fallback_stops world_unreachable).
    + reflexivity.
    + intros k. exact I.
  - apply (proj1 (proj2 (primary_retries_fallback_stops world_fallback_disabled))
             eq_refl eq_refl None
             (Exception (str "Chat is Disabled for this video")) 0).
    reflexivity.
Defined.

(* ===================================================================== *)
(** * Stream identifier extraction: further properties *)
(* ===================================================================== *)

Lemma lstrip_spaces ws s :
  forallb isspace ws = true -> lstrip (ws ++ s) = lstrip s.
Proof.
  induction ws as [|c ws IH]; simpl; [reflexivity|].
  intros H. apply andb_true_iff in H. destruct H as [Hc Hws].
  rewrite Hc. apply IH, Hws.
Qed.

Lemma rstrip_spaces s ws :
  forallb isspace ws = true -> rstrip (s ++ ws) = rstrip s.
Proof.
  intros H. unfold rstrip. rewrite rev_app_distr.
  rewrite lstrip_spaces by (rewrite forallb_rev; exact H). reflexivity.
Qed.

Lemma strip_trailing_spaces s ws :
  forallb isspace ws = true -> rstrip (lstrip (s ++ ws)) = rstrip (lstrip s).
Proof.
  intros H. induction s as [|c s IH].
  - simpl. rewrite <- (app_nil_r ws), lstrip_spaces by exact H. reflexivity.
  - simpl. destruct (isspace c); [exact IH|].
    change (c :: s ++ ws) with ((c :: s) ++ ws). apply rstrip_spaces, H.
Qed.

Lemma strip_padding ws1 s ws2 :
  forallb isspace ws1 = true -> forallb isspace ws2 = true ->
  strip (ws1 ++ s ++ ws2) = strip s.
Proof.
  intros H1 H2. unfold strip.
  rewrite lstrip_spaces by exact H1. apply strip_trailing_spaces, H2.
Qed.

Lemma lstrip_suffix s : exists pre, s = pre ++ lstrip s.
Proof.
  induction s as [|c s [pre IH]]; simpl.
  - exists []. reflexivity.
  - destruct (isspace c).
    + exists (c :: pre). simpl. f_equal. exact IH.
    + exists []. reflexivity.
Qed.

Lemma rstrip_prefix s : exists post, s = rstrip s ++ post.
Proof.
  unfold rstrip. destruct (lstrip_suffix (rev s)) as [pre H].
  exists (rev pre).
  rewrite <- rev_app_distr, <- H, rev_involutive. reflexivity.
Qed.

Lemma strip_infix s : exists pre post, s = pre ++ strip s ++ post.
Proof.
  unfold strip.
  destruct (lstrip_suffix s) as [pre Hpre].
  destruct (rstrip_prefix (lstrip s)) as [post Hpost].
  exists pre, post. rewrite <- Hpost. exact Hpre.
Qed.

Lemma first_pattern_occurs ps s r :
  first_pattern ps s = Some r -> exists lit, In lit ps /\ occurs lit s r.
Proof.
  induction ps as [|p ps IH]; simpl; [discriminate|].
  destruct (re_search p s) as [g|] eqn:E.
  - intros H. injection H as <-. exists p. split; [left; reflexivity|].
    apply re_search_sound, E.
  - intros H. destruct (IH H) as [lit [Hin Ho]]. exists lit. auto.
Qed.

(** X1. Whitespace around the input never changes what is extracted. *)
Theorem extract_ignores_surrounding_whitespace (ws1 s ws2 : pystr) :
  forallb isspace ws1 = true -> forallb isspace ws2 = true ->
  extract_youtube_video_id (ws1 ++ s ++ ws2) = extract_youtube_video_id s.
Proof.
  intros H1 H2. unfold extract_youtube_video_id.
  rewrite strip_padding by assumption. reflexivity.
Qed.

Lemma extract_ignores_surrounding_whitespace_witness :
  extract_youtube_video_id (str "  " ++ str "https://youtu.be/dQw4w9WgXcQ" ++ [newline])
  = extract_youtube_video_id (str "https://youtu.be/dQw4w9WgXcQ").
Proof.
  apply (extract_ignores_surrounding_whitespace
           (str "  ") (str "https://youtu.be/dQw4w9WgXcQ") [newline]);
    reflexivity.
Defined.

(** X2. The extractor never makes up an id: whatever it returns is a
    contiguous piece of the input, 11 characters long, all from the id
    alphabet. *)
Theorem extract_returns_piece_of_input (u r : pystr) :
  extract_youtube_video_id u = Some r ->
  exists pre post,
    u = pre ++ r ++ post
    /\ length r = 11
    /\ Forall (fun c => is_id_char c = true) r.
Proof.
  intros H.
  pose proof (extract_is_id u r H) as Hid.
  apply fullmatch_id_spec in Hid. destruct Hid as [Hl Hc].
  destruct (strip_infix u) as [pre [post Hu]].
  unfold extract_youtube_video_id in H.
  destruct (fullmatch_id (strip u)) eqn:Hf.
  - injection H as <-. exists pre, post. auto.
  - destruct (first_pattern_occurs _ _ _ H) as [lit [_ [p1 [p2 [Hs _]]]]].
    exists (pre ++ p1 ++ lit), (p2 ++ post).
    split; [|auto]. rewrite Hu, Hs. rewrite <- !app_assoc. reflexivity.
Qed.

Lemma extract_returns_piece_of_input_witness :
  exists pre post,
    str "see https://www.youtube.com/live/dQw4w9WgXcQ?feature=share"
    = pre ++ str "dQw4w9WgXcQ" ++ post.
Proof.
  destruct (extract_returns_piece_of_input
              (str "see https://www.youtube.com/live/dQw4w9WgXcQ?feature=share")
              (str "dQw4w9WgXcQ") eq_refl) as [pre [post [H _]]].
  exists pre, post. exact H.
Defined.

Lemma re_search_here lit s g : match_at lit s = Some g -> re_search lit s = Some g.
Proof.
  intros H. destruct s; simpl; rewrite H; reflexivity.
Qed.

Lemma re_search_none lit s : (forall r, ~ occurs lit s r) -> re_search lit s = None.
Proof.
  intros H. destruct (re_search lit s) as [g|] eqn:E; [|reflexivity].
  exfalso. exact (H g (re_search_sound _ _ _ E)).
Qed.

Lemma strip_nonspace s : (forall c, In c s -> isspace c = false) -> strip s = s.
Proof.
  intros H. unfold strip, rstrip.
  assert (Hl : forall l, (forall c, In c l -> isspace c = false) -> lstrip l = l).
  { intros l Hl. apply lstrip_fix. destruct l as [|c l]; [exact I|].
    apply Hl. left. reflexivity. }
  rewrite (Hl s H). rewrite Hl; [apply rev_involutive|].
  intros c Hc. apply H. apply in_rev. exact Hc.
Qed.

(** X3. For each URL pattern the search takes the leftmost place where the
    pattern matches: no other match of that pattern starts earlier in the
    text. *)
Theorem re_search_leftmost (lit s g : pystr) :
  re_search lit s = Some g ->
  exists pre post,
    s = pre ++ lit ++ g ++ post
    /\ fullmatch_id g = true
    /\ forall pre' r' post',
         s = pre' ++ lit ++ r' ++ post' -> fullmatch_id r' = true ->
         length pre <= length pre'.
Proof.
  induction s as [|c s IH]; simpl.
  - destruct (match_at lit []) as [g'|] eqn:Hm; [|discriminate].
    intros H. injection H as ->. apply match_at_spec in Hm.
    destruct Hm as [post [Hs Hf]]. exists [], post. simpl.
    repeat split; auto. intros; lia.
  - destruct (match_at lit (c :: s)) as [g'|] eqn:Hm.
    + intros H. injection H as ->. apply match_at_spec in Hm.
      destruct Hm as [post [Hs Hf]]. exists [], post. simpl.
      repeat split; auto. intros; lia.
    + intros H. destruct (IH H) as [pre [post [Hs [Hf Hmin]]]].
      exists (c :: pre), post. split; [simpl; f_equal; exact Hs|].
      split; [exact Hf|].
      intros pre' r' post' Hs' Hf'. destruct pre' as [|x pre'].
      * exfalso. simpl in Hs'.
        assert (match_at lit (c :: s) = Some r') by (apply match_at_spec; eauto).
        congruence.
      * simpl in Hs'. injection Hs' as _ Hs'. simpl.
        apply le_n_S. exact (Hmin pre' r' post' Hs' Hf').
Qed.

Lemma re_search_leftmost_witness :
  exists pre post,
    str "v=AAAAAAAAAAA&v=BBBBBBBBBBB" = pre ++ str "v=" ++ str "AAAAAAAAAAA" ++ post
    /\ forall pre' r' post',
         str "v=AAAAAAAAAAA&v=BBBBBBBBBBB" = pre' ++ str "v=" ++ r' ++ post' ->
         fullmatch_id r' = true -> length pre <= length pre'.
Proof.
  destruct (re_search_leftmost (str "v=") (str "v=AAAAAAAAAAA&v=BBBBBBBBBBB")
              (str "AAAAAAAAAAA") eq_refl) as [pre [post [H [_ Hmin]]]].
  exists pre, post. split; [exact H | exact Hmin].
Defined.

(** X4. The id is not required to end where the match ends: when a pattern
    is followed by more than eleven id characters, the first eleven are
    returned and the rest is silently cut off. *)
Theorem extract_truncates_long_id (lit id tail : pystr) :
  In lit url_patterns ->
  fullmatch_id id = true ->
  forallb is_id_char tail = true ->
  extract_youtube_video_id (lit ++ id ++ tail) = Some id.
Proof.
  intros Hlit Hid Htail.
  pose proof Hid as Hid'. apply fullmatch_id_spec in Hid'. destruct Hid' as [Hlen Hall].
  rewrite Forall_forall in Hall.
  rewrite forallb_forall in Htail.
  assert (Hchars : forall c, In c (id ++ tail) -> is_id_char c = true).
  { intros c Hc. apply in_app_iff in Hc. destruct Hc; auto. }
  assert (Hm : match_at lit (lit ++ id ++ tail) = Some id)
    by (apply match_at_spec; eauto).
  unfold extract_youtube_video_id.
  assert (Hstrip : strip (lit ++ id ++ tail) = lit ++ id ++ tail).
  { apply strip_nonspace. intros c Hc. apply in_app_iff in Hc.
    destruct Hc as [Hc|Hc]; [|apply id_char_not_space, Hchars, Hc].
    unfold url_patterns in Hlit. simpl in Hlit.
    destruct Hlit as [<-|[<-|[<-|[]]]]; vm_compute in Hc;
      repeat (destruct Hc as [<-|Hc]; [reflexivity|]); contradiction. }
  rewrite Hstrip.
  assert (Hfull : fullmatch_id (lit ++ id ++ tail) = false).
  { unfold fullmatch_id. rewrite !length_app, Hlen.
    unfold url_patterns in Hlit. simpl in Hlit.
    destruct Hlit as [<-|[<-|[<-|[]]]]; reflexivity. }
  rewrite Hfull.
  assert (Habsent : forall (c : char) lit' r,
             is_id_char c = false -> In c lit' -> ~ In c lit ->
             ~ occurs lit' (lit ++ id ++ tail) r).
  { intros c lit' r Hc Hin Hnot [pre [post [Hs _]]].
    assert (Hc' : In c (lit ++ id ++ tail)).
    { rewrite Hs. apply in_or_app. right. apply in_or_app. left. exact Hin. }
    apply in_app_iff in Hc'. destruct Hc' as [Hc'|Hc']; [exact (Hnot Hc')|].
    rewrite (Hchars c Hc') in Hc. discriminate. }
  unfold url_patterns in *. simpl in Hlit. cbn [first_pattern].
  destruct Hlit as [<-|[<-|[<-|[]]]].
  - rewrite (re_search_here _ _ _ Hm). reflexivity.
  - rewrite (re_search_none (str "youtu.be/")).
    + rewrite (re_search_here _ _ _ Hm). reflexivity.
    + intros r. apply (Habsent 46%N); [reflexivity | vm_compute; tauto |].
      vm_compute. intuition discriminate.
  - rewrite (re_search_none (str "youtu.be/")).
    + rewrite (re_search_none (str "v=")).
      * rewrite (re_search_here _ _ _ Hm). reflexivity.
      * intros r. apply (Habsent 61%N); [reflexivity | vm_compute; tauto |].
        vm_compute. intuition discriminate.
    + intros r. apply (Habsent 46%N); [reflexivity | vm_compute; tauto |].
      vm_compute. intuition discriminate.
Qed.

Lemma extract_truncates_long_id_witness :
  extract_youtube_video_id (str "v=" ++ str "dQw4w9WgXcQ" ++ str "EXTRA")
  = Some (str "dQw4w9WgXcQ").
Proof.
  apply (extract_truncates_long_id (str "v=") (str "dQw4w9WgXcQ") (str "EXTRA")).
  - right. left. reflexivity.
  - reflexivity.
  - reflexivity.
Defined.

(* ===================================================================== *)
(** * MainWindow: further properties *)
(* ===================================================================== *)

Lemma extract_strip u :
  extract_youtube_video_id (strip u) = extract_youtube_video_id u.
Proof.
  unfold extract_youtube_video_id. rewrite strip_idem. reflexivity.
Qed.

(** X5. Start on an accepted input starts exactly one reader, on the
    extracted 11-character id; it empties the buffer without summarizing
    what was in it and takes the current clock reading as the new
    baseline. *)
Theorem on_start_accepts (url_text vid : pystr) (now : Q) (w : MainWindow) :
  extract_youtube_video_id url_text = Some vid ->
  exists tr,
    _on_start url_text now w
    = (Ok tt,
       {| pending_messages := []; last_summary_ts := now; reader := Some vid |},
       tr)
    /\ readers_started tr = [vid]
    /\ length vid = 11
    /\ Forall (fun c => is_id_char c = true) vid
    /\ summarize_batches tr = []
    /\ narrations tr = []
    /\ chat_view_lines tr = [str "Starting chat for video: " ++ vid].
Proof.
  intros H. pose proof (extract_is_id _ _ H) as Hid.
  apply fullmatch_id_spec in Hid. destruct Hid as [Hl Hc].
  unfold _on_start. rewrite extract_strip, H.
  eexists. split; [reflexivity|]. cbn. repeat split; auto.
Qed.

Lemma on_start_accepts_witness :
  let m := {| author := str "a"; text := str "hi"; type := str "textMessage";
              is_moderator := false; is_verified := false |} in
  let w := {| pending_messages := [m; m]; last_summary_ts := 5%Q; reader := None |} in
  exists tr,
    _on_start (str " https://youtu.be/dQw4w9WgXcQ ") 100%Q w
    = (Ok tt,
       {| pending_messages := []; last_summary_ts := 100%Q;
          reader := Some (str "dQw4w9WgXcQ") |}, tr)
    /\ readers_started tr = [str "dQw4w9WgXcQ"].
Proof.
  intros m w.
  destruct (on_start_accepts (str " https://youtu.be/dQw4w9WgXcQ ")
              (str "dQw4w9WgXcQ") 100%Q w eq_refl) as [tr [E [Hr _]]].
  exists tr. split; [exact E | exact Hr].
Defined.

(** X6. Outside the standard mode an incoming message is only buffered and
    logged with the [[msg]] prefix: it is not narrated and no sound is
    played. *)
Theorem on_message_not_narrated_outside_standard (ui : Widgets) (msg : Message)
    (w : MainWindow) :
  chat_mode ui <> CHAT_MODE_STANDARD ->
  exists tr,
    _on_message ui msg w
    = (Ok tt, set_pending w (pending_messages w ++ [msg]), tr)
    /\ narrations tr = []
    /\ sounds tr = []
    /\ summarize_batches tr = []
    /\ chat_view_lines tr = [str "[msg] " ++ author msg ++ str ": " ++ text msg].
Proof.
  intros Hmode. unfold _on_message.
  destruct (str_eqb (chat_mode ui) CHAT_MODE_STANDARD) eqn:E.
  - apply str_eqb_eq in E. contradiction.
  - cbn. eexists. split; [reflexivity|]. repeat split.
Qed.

Lemma on_message_not_narrated_outside_standard_witness :
  let ui := {| chat_mode := str "Summaries (periodic)";
               summary_interval := 5; quick_summary_count_sb := 50 |} in
  let msg := {| author := str "mod"; text := str "hello"; type := str "superChat";
                is_moderator := true; is_verified := false |} in
  let w := {| pending_messages := []; last_summary_ts := 0%Q; reader := None |} in
  exists tr,
    _on_message ui msg w = (Ok tt, set_pending w [msg], tr)
    /\ narrations tr = [] /\ sounds tr = [].
Proof.
  intros ui msg w.
  destruct (on_message_not_narrated_outside_standard ui msg w ltac:(discriminate))
    as [tr [E [Hn [Hs _]]]].
  exists tr. split; [exact E|]. split; [exact Hn | exact Hs].
Defined.

(** X7. In standard mode every message plays exactly one sound, chosen by
    priority: a paid message (super chat or super sticker) plays the
    donation sound whatever the author's flags; otherwise a moderator's
    message plays the moderator sound even when the author is also
    verified; otherwise a verified author's plays the verified sound;
    otherwise the plain chat sound. *)
Theorem on_message_sound_priority (ui : Widgets) (msg : Message) (w : MainWindow) :
  chat_mode ui = CHAT_MODE_STANDARD ->
  let paid := type msg = str "superChat" \/ type msg = str "superSticker" in
  exists snd_name,
    sounds (snd (_on_message ui msg w)) = [snd_name]
    /\ (paid -> snd_name = str "donation")
    /\ (~ paid -> is_moderator msg = true -> snd_name = str "moderator")
    /\ (~ paid -> is_moderator msg = false -> is_verified msg = true ->
        snd_name = str "verified")
    /\ (~ paid -> is_moderator msg = false -> is_verified msg = false ->
        snd_name = str "chat").
Proof.
  intros Hmode paid. subst paid. unfold _on_message.
  rewrite Hmode, str_eqb_refl.
  destruct (str_eqb (type msg) (str "superChat")) eqn:E1;
    [|destruct (str_eqb (type msg) (str "superSticker")) eqn:E2].
  - apply str_eqb_eq in E1. cbn. eexists. split; [reflexivity|].
    repeat split; intros; tauto.
  - apply str_eqb_eq in E2. cbn. eexists. split; [reflexivity|].
    repeat split; intros; tauto.
  - assert (Hnp : ~ (type msg = str "superChat" \/ type msg = str "superSticker")).
    { intros [H|H]; apply str_eqb_eq in H; congruence. }
    cbn [orb].
    destruct (is_moderator msg); [|destruct (is_verified msg)];
      cbn; eexists; (split; [reflexivity|]);
      repeat split; intros; try tauto; try discriminate.
Qed.

Lemma on_message_sound_priority_witness :
  let ui := {| chat_mode := str "Standard (read messages)";
               summary_interval := 5; quick_summary_count_sb := 50 |} in
  let msg := {| author := str "mod"; text := str "thanks"; type := str "superChat";
                is_moderator := true; is_verified := true |} in
  let w := {| pending_messages := []; last_summary_ts := 0%Q; reader := None |} in
  sounds (snd (_on_message ui msg w)) = [str "donation"].
Proof.
  intros ui msg w.
  destruct (on_message_sound_priority ui msg w eq_refl) as [n [E [Hp _]]].
  rewrite E. f_equal. apply Hp. left. reflexivity.
Defined.

Lemma on_message_state ui msg w :
  exists tr,
    _on_message ui msg w = (Ok tt, set_pending w (pending_messages w ++ [msg]), tr).
Proof.
  unfold _on_message.
  destruct (str_eqb (chat_mode ui) CHAT_MODE_STANDARD);
    [destruct (str_eqb (type msg) (str "superChat") || str_eqb (type msg) (str "superSticker"));
     [|destruct (is_moderator msg); [|destruct (is_verified msg)]]|];
    cbn; eexists; reflexivity.
Qed.

Lemma on_quick_summary_state ui env w :
  exists r tr, _on_quick_summary ui env w = (r, w, tr).
Proof.
  unfold _on_quick_summary. unfold bind at 1. unfold get at 1. cbn iota beta.
  destruct (pending_messages w) as [|m ms]; [eexists _, _; reflexivity|].
  destruct (summarize_run env (slice_from (- quick_summary_count_sb ui) (m :: ms)) w)
    as [out [tr [E _]]].
  unfold bind, emit, try_except, ret. rewrite E. cbn. eexists _, _; reflexivity.
Qed.

Lemma handler_not_periodic op w :
  chat_mode (op_widgets op) <> CHAT_MODE_SUMMARIES ->
  exists r w1 tr,
    handler op w = (r, w1, tr)
    /\ periodic_batches [(op, tr)] = []
    /\ last_summary_ts w1 = last_summary_ts w.
Proof.
  intros Hmode.
  destruct op as [ui msg | ui env | ui env now now']; cbn [op_widgets] in Hmode;
    cbn [handler].
  - destruct (on_message_state ui msg w) as [tr E].
    eexists _, _, tr. split; [exact E|]. split; reflexivity.
  - destruct (on_quick_summary_state ui env w) as [r [tr E]].
    exists r, w, tr. auto.
  - rewrite maybe_do_summary_idle by tauto.
    exists (Ok tt), w, []. auto.
Qed.

(** X8. While the chat mode is not the periodic one the timer never
    flushes: over any sequence of handler calls the buffer only grows, by
    exactly the messages received, nothing is handed to the summarizer by
    the timer and the baseline stays where it was. *)
Theorem buffer_only_grows_outside_periodic (ops : list Op) (w : MainWindow) :
  (forall op, In op ops -> chat_mode (op_widgets op) <> CHAT_MODE_SUMMARIES) ->
  pending_messages (fst (run_ops ops w)) = pending_messages w ++ appended ops
  /\ periodic_batches (snd (run_ops ops w)) = []
  /\ last_summary_ts (fst (run_ops ops w)) = last_summary_ts w.
Proof.
  intros Hmode.
  assert (H : periodic_batches (snd (run_ops ops w)) = []
              /\ last_summary_ts (fst (run_ops ops w)) = last_summary_ts w).
  { revert w. induction ops as [|op ops IH]; intros w; [cbn; auto|].
    destruct (handler_not_periodic op w (Hmode op (or_introl eq_refl)))
      as [r [w1 [tr [E [Hb Ht]]]]].
    cbn [run_ops]. rewrite E.
    destruct (IH (fun o Ho => Hmode o (or_intror Ho)) w1) as [IHb IHt].
    destruct (run_ops ops w1) as [w2 log]. cbn [fst snd] in *.
    rewrite periodic_batches_cons, Hb, IHb, IHt, Ht. auto. }
  destruct H as [Hb Ht]. split; [|auto].
  pose proof (run_ops_conserves ops w) as Hc. rewrite Hb in Hc. cbn in Hc.
  symmetry. exact Hc.
Qed.

Lemma buffer_only_grows_outside_periodic_witness :
  let ui := {| chat_mode := str "Standard (read messages)";
               summary_interval := 1; quick_summary_count_sb := 50 |} in
  let env := {| openai := false; openai_api_key := []; completion := Ok None |} in
  let m := fun a => {| author := a; text := str "hi"; type := str "textMessage";
                       is_moderator := false; is_verified := false |} in
  let w := {| pending_messages := []; last_summary_ts := 0%Q; reader := None |} in
  let ops := [OnMessage ui (m (str "a")); OnTimer ui env 600%Q 600%Q;
              OnMessage ui (m (str "b")); OnTimer ui env 1200%Q 1200%Q] in
  pending_messages (fst (run_ops ops w)) = [m (str "a"); m (str "b")].
Proof.
  intros ui env m w ops.
  apply (buffer_only_grows_outside_periodic ops w).
  intros op Hin. simpl in Hin.
  destruct Hin as [<-|[<-|[<-|[<-|[]]]]]; discriminate.
Defined.

Lemma due_at_least_a_minute ui now w :
  due ui now w -> (last_summary_ts w + 60 <= now)%Q.
Proof.
  unfold due. intros H.
  assert (Hz : (60 <= Z.max 1 (summary_interval ui) * 60)%Z) by lia.
  rewrite Zle_Qle in Hz. change (inject_Z 60) with 60%Q in Hz. lra.
Qed.

Lemma spaced_weaken prev prev' l :
  (prev <= prev')%Q -> spaced prev' l -> spaced prev l.
Proof.
  destruct l as [|t l]; simpl; [auto|]. intros Hle [H1 H2]. split; [lra | exact H2].
Qed.

Lemma handler_flush_time op w :
  (forall ui env now now', op = OnTimer ui env now now' -> (now <= now')%Q) ->
  exists r w1 tr,
    handler op w = (r, w1, tr)
    /\ ((flush_times [(op, tr)] = [] /\ last_summary_ts w1 = last_summary_ts w)
        \/ exists t, flush_times [(op, tr)] = [t]
                     /\ (last_summary_ts w + 60 <= t)%Q
                     /\ (t <= last_summary_ts w1)%Q).
Proof.
  intros Hclock.
  destruct op as [ui msg | ui env | ui env now now']; cbn [handler].
  - destruct (on_message_state ui msg w) as [tr E].
    eexists _, _, tr. split; [exact E|]. left. split; reflexivity.
  - destruct (on_quick_summary_state ui env w) as [r [tr E]].
    exists r, w, tr. split; [exact E|]. left. split; reflexivity.
  - assert (Hdec : (chat_mode ui = CHAT_MODE_SUMMARIES /\ due ui now w
                    /\ pending_messages w <> [])
                   \/ ~ (chat_mode ui = CHAT_MODE_SUMMARIES /\ due ui now w
                         /\ pending_messages w <> [])).
    { destruct (str_eqb (chat_mode ui) CHAT_MODE_SUMMARIES) eqn:Hm.
      - apply str_eqb_eq in Hm. destruct (due_dec ui now w) as [Hd|Hd]; [|right; tauto].
        destruct (pending_messages w); [right; intros [_ [_ H]]; congruence|].
        left. repeat split; [exact Hm | exact Hd | discriminate].
      - right. intros [Hm' _]. apply str_eqb_eq in Hm'. congruence. }
    destruct Hdec as [[Hm [Hd Hne]]|Hno].
    + destruct (maybe_do_summary_fires ui env now now' w Hm Hd Hne)
        as [summary [calls [E Hc]]].
      eexists _, _, _. split; [exact E|]. right. exists now.
      split; [destruct Hc as [->| ->]; reflexivity|].
      split; [apply (due_at_least_a_minute ui), Hd|].
      cbn. apply (Hclock ui env now now' eq_refl).
    + rewrite maybe_do_summary_idle by exact Hno.
      exists (Ok tt), w, []. split; [reflexivity|]. left. auto.
Qed.

Lemma flush_times_cons op tr log :
  flush_times ((op, tr) :: log) = flush_times [(op, tr)] ++ flush_times log.
Proof.
  unfold flush_times. cbn [flat_map]. rewrite app_nil_r. reflexivity.
Qed.

Lemma run_ops_spaced ops :
  clock_monotone ops ->
  forall w prev,
    (prev <= last_summary_ts w)%Q ->
    spaced prev (flush_times (snd (run_ops ops w))).
Proof.
  induction ops as [|op ops IH]; intros Hclock w prev Hprev; [exact I|].
  destruct (handler_flush_time op w) as [r [w1 [tr [E Hcase]]]].
  { intros ui env now now' ->. apply (Hclock ui env now now'). left. reflexivity. }
  assert (Hclock' : clock_monotone ops).
  { intros ui env now now' Hin. apply (Hclock ui env now now'). right. exact Hin. }
  cbn [run_ops]. rewrite E.
  specialize (IH Hclock' w1).
  destruct (run_ops ops w1) as [w2 log]. cbn [fst snd] in *.
  rewrite flush_times_cons.
  destruct Hcase as [[-> Ht]|[t [-> [Hlo Hhi]]]].
  - cbn [app]. apply IH. rewrite Ht. exact Hprev.
  - cbn [app spaced]. split; [lra|]. apply IH. exact Hhi.
Qed.

(** X9. Periodic flushes are rate-limited: in any sequence of handler
    calls (with a clock that does not run backwards inside a timer check)
    the first flush comes at least sixty seconds after the baseline the
    window had, and every later flush at least sixty seconds after the one
    before it, whatever interval is configured. *)
Theorem periodic_flushes_a_minute_apart (ops : list Op) (w : MainWindow) :
  clock_monotone ops ->
  spaced (last_summary_ts w) (flush_times (snd (run_ops ops w))).
Proof.
  intros Hclock. apply run_ops_spaced; [exact Hclock | lra].
Qed.

Lemma periodic_flushes_a_minute_apart_witness :
  let ui := {| chat_mode := str "Summaries (periodic)";
               summary_interval := 0; quick_summary_count_sb := 50 |} in
  let env := {| openai := false; openai_api_key := []; completion := Ok None |} in
  let m := {| author := str "a"; text := str "hi"; type := str "textMessage";
              is_moderator := false; is_verified := false |} in
  let w := {| pending_messages := []; last_summary_ts := 0%Q; reader := None |} in
  let ops := [OnMessage ui m; OnTimer ui env 5%Q 5%Q; OnTimer ui env 60%Q 61%Q;
              OnMessage ui m; OnTimer ui env 65%Q 65%Q; OnTimer ui env 121%Q 122%Q] in
  flush_times (snd (run_ops ops w)) = [60%Q; 121%Q]
  /\ spaced 0%Q (flush_times (snd (run_ops ops w))).
Proof.
  intros ui env m w ops. split; [reflexivity|].
  apply (periodic_flushes_a_minute_apart ops w).
  intros ui' env' now now' Hin. simpl in Hin.
  destruct Hin as [H|[H|[H|[H|[H|[H|[]]]]]]]; try discriminate H;
    injection H as _ _ <- <-; apply Qle_bool_iff; reflexivity.
Defined.

(* ===================================================================== *)
(** * Summarizer: further properties *)
(* ===================================================================== *)

Lemma lstrip_all_spaces s : forallb isspace s = true -> lstrip s = [].
Proof.
  intros H. rewrite <- (app_nil_r s). rewrite lstrip_spaces by exact H. reflexivity.
Qed.

Lemma strip_head_not_space s :
  match strip s with [] => True | c :: _ => isspace c = false end.
Proof.
  unfold strip. pose proof (lstrip_head s) as H.
  destruct (lstrip s) as [|c l]; [exact I|].
  rewrite rstrip_cons by exact H. exact H.
Qed.

Lemma strip_last_not_space s :
  match rev (strip s) with [] => True | c :: _ => isspace c = false end.
Proof.
  unfold strip, rstrip. rewrite rev_involutive. apply lstrip_head.
Qed.

(** X10. When the provider answers with non-empty text, the summary is
    that text with the surrounding whitespace removed: it neither starts
    nor ends with a whitespace character.  When the answer consists of
    whitespace only, the summary is the empty string, not the
    empty-summary notice. *)
Theorem summarize_returns_stripped_content {S} (env : Env) (messages : list Message)
    (s : S) (content : pystr) :
  messages <> [] ->
  openai env = true ->
  openai_api_key env <> [] ->
  completion env = Ok (Some content) ->
  content <> [] ->
  exists tr,
    summarize env messages s = (Ok (strip content), s, tr)
    /\ match strip content with [] => True | c :: _ => isspace c = false end
    /\ match rev (strip content) with [] => True | c :: _ => isspace c = false end
    /\ (forallb isspace content = true -> strip content = []).
Proof.
  intros Hm Ho Hk Hc Hne.
  destruct messages as [|m ms]; [congruence|].
  destruct content as [|c content]; [congruence|].
  unfold summarize, _summarize_with_openai. rewrite Ho. cbn [negb].
  destruct (openai_api_key env) as [|k key]; [congruence|].
  unfold try_except, bind, emit, lift, ret. rewrite Hc. cbn -[strip].
  eexists. split; [reflexivity|].
  split; [apply strip_head_not_space|]. split; [apply strip_last_not_space|].
  intros Hsp. unfold strip. rewrite lstrip_all_spaces by exact Hsp. reflexivity.
Qed.

Lemma summarize_returns_stripped_content_witness :
  let env := {| openai := true;
                openai_api_key := str "sk-test";
                completion := Ok (Some (str "   ")) |} in
  let batch := [{| author := str "a"; text := str "hi"; type := str "textMessage";
                   is_moderator := false; is_verified := false |}] in
  exists tr, summarize env batch tt = (Ok [], tt, tr).
Proof.
  intros env batch.
  destruct (summarize_returns_stripped_content env batch tt (str "   ")
              ltac:(discriminate) eq_refl ltac:(discriminate) eq_refl
              ltac:(discriminate)) as [tr [E _]].
  exists tr. exact E.
Defined.

(* ===================================================================== *)
(** * Error notices: how the window shows what the reader reports *)
(* ===================================================================== *)

Lemma starts_with_skip p c s rest :
  ~ In c p -> starts_with p (s ++ c :: rest) = starts_with p s.
Proof.
  revert s. induction p as [|x p IH]; intros s Hc; [destruct s; reflexivity|].
  destruct s as [|d s]; simpl.
  - destruct (N.eqb_spec x c) as [->|Hne]; [|reflexivity].
    exfalso. apply Hc. left. reflexivity.
  - f_equal. apply IH. intros Hin. apply Hc. right. exact Hin.
Qed.

Lemma contains_split p c s rest :
  ~ In c p -> contains p (s ++ c :: rest) = contains p s || contains p rest.
Proof.
  intros Hc. induction s as [|d s IH].
  - cbn [app]. cbn [contains].
    rewrite <- (starts_with_skip p c [] rest Hc). cbn [app].
    rewrite orb_false_r. reflexivity.
  - cbn [app]. cbn [contains]. rewrite IH.
    change (d :: s ++ c :: rest) with ((d :: s) ++ c :: rest).
    rewrite starts_with_skip by exact Hc. rewrite orb_assoc. reflexivity.
Qed.

Lemma lower_app a b : lower (a ++ b) = lower a ++ lower b.
Proof. apply map_app. Qed.

Lemma reader_error_lower e :
  lower (reader_error e)
  = str "chat reader error" ++ 58%N
    :: 32%N :: lower (exn_text e) ++ 46%N :: str " retrying in 10 seconds...".
Proof.
  unfold reader_error. rewrite !lower_app.
  change (lower (str "Chat reader error: "))
    with (str "chat reader error" ++ [58%N; 32%N]).
  change (lower (str ". Retrying in 10 seconds..."))
    with (46%N :: str " retrying in 10 seconds...").
  rewrite <- app_assoc. reflexivity.
Qed.

Lemma reader_error_reconnecting e :
  contains (str "reconnecting") (lower (reader_error e))
  = contains (str "reconnecting") (lower (exn_text e)).
Proof.
  rewrite reader_error_lower.
  rewrite contains_split by (vm_compute; intuition discriminate).
  change (32%N :: lower (exn_text e) ++ 46%N :: str " retrying in 10 seconds...")
    with ([] ++ 32%N :: lower (exn_text e) ++ 46%N :: str " retrying in 10 seconds...").
  rewrite contains_split by (vm_compute; intuition discriminate).
  rewrite contains_split by (vm_compute; intuition discriminate).
  change (contains (str "reconnecting") (str "chat reader error")) with false.
  change (contains (str "reconnecting") []) with false.
  change (contains (str "reconnecting") (str " retrying in 10 seconds...")) with false.
  cbn [orb]. apply orb_false_r.
Qed.

Lemma reader_error_connection_lost e :
  contains (str "connection lost") (lower (reader_error e))
  = contains (str "connection lost") (lower (exn_text e)).
Proof.
  rewrite reader_error_lower.
  rewrite contains_split by (vm_compute; intuition discriminate).
  change (contains (str "connection lost") (str "chat reader error")) with false.
  cbn [orb].
  change (contains (str "connection lost")
            (32%N :: lower (exn_text e) ++ 46%N :: str " retrying in 10 seconds..."))
    with (contains (str "connection lost")
            (lower (exn_text e) ++ 46%N :: str " retrying in 10 seconds...")).
  rewrite contains_split by (vm_compute; intuition discriminate).
  change (contains (str "connection lost") (str " retrying in 10 seconds...")) with false.
  apply orb_false_r.
Qed.

Lemma downloader_text_lower emsg :
  lower (str "Chat downloader error: " ++ emsg)
  = str "chat downloader error" ++ 58%N :: 32%N :: lower emsg.
Proof.
  rewrite lower_app.
  change (lower (str "Chat downloader error: "))
    with (str "chat downloader error" ++ [58%N; 32%N]).
  rewrite <- app_assoc. reflexivity.
Qed.

Lemma downloader_text_reconnecting emsg :
  contains (str "reconnecting") (lower (str "Chat downloader error: " ++ emsg))
  = contains (str "reconnecting") (lower emsg).
Proof.
  rewrite downloader_text_lower.
  rewrite contains_split by (vm_compute; intuition discriminate).
  change (32%N :: lower emsg) with ([] ++ 32%N :: lower emsg).
  rewrite contains_split by (vm_compute; intuition discriminate).
  change (contains (str "reconnecting") (str "chat downloader error")) with false.
  change (contains (str "reconnecting") []) with false.
  reflexivity.
Qed.

Lemma downloader_text_connection_lost emsg :
  contains (str "connection lost") (lower (str "Chat downloader error: " ++ emsg))
  = contains (str "connection lost") (lower emsg).
Proof.
  rewrite downloader_text_lower.
  rewrite contains_split by (vm_compute; intuition discriminate).
  change (contains (str "connection lost") (str "chat downloader error")) with false.
  reflexivity.
Qed.

(** X11. How the window shows the reader's notices.  Every notice, whatever
    its text, plays the error sound, is appended to the chat view after
    "[Error] ", and is then shown exactly once: in the status bar for five
    seconds when its text contains "reconnecting" or "connection lost" (in
    any letter case), in a modal warning box otherwise.  For the notices the
    reader emits: the connection-lost notice goes to the status bar; the
    retry notice after an exception, and the "Chat downloader error" notice
    of the fallback backend, go to the status bar only when the exception's
    own text contains one of the two phrases, and open a warning box
    otherwise; the chat-disabled and no-backend notices open a warning
    box. *)
Theorem on_error_routing (err : pystr) (e : exn) :
  let keyword (x : pystr) :=
    contains (str "reconnecting") (lower x)
    || contains (str "connection lost") (lower x) in
  let shown (x : pystr) (last : UiEvent) :=
    [Ui (PlaySound (str "error")); Ui (ChatViewAppend (str "[Error] " ++ x)); last] in
  _on_error err
  = shown err (if keyword err then StatusMessage err 5000 else Ui (WarningBox err))
  /\ _on_error connection_lost = shown connection_lost (StatusMessage connection_lost 5000)
  /\ (keyword (exn_text e) = false ->
      _on_error (reader_error e) = shown (reader_error e) (Ui (WarningBox (reader_error e))))
  /\ (keyword (exn_text e) = true ->
      _on_error (reader_error e) = shown (reader_error e) (StatusMessage (reader_error e) 5000))
  /\ (contains (str "disabled") (lower (exn_text e)) = true ->
      downloader_error e = chat_disabled)
  /\ (contains (str "disabled") (lower (exn_text e)) = false ->
      downloader_error e = str "Chat downloader error: " ++ exn_text e
      /\ (keyword (exn_text e) = false ->
          _on_error (downloader_error e)
          = shown (downloader_error e) (Ui (WarningBox (downloader_error e))))
      /\ (keyword (exn_text e) = true ->
          _on_error (downloader_error e)
          = shown (downloader_error e) (StatusMessage (downloader_error e) 5000)))
  /\ _on_error chat_disabled = shown chat_disabled (Ui (WarningBox chat_disabled))
  /\ _on_error no_backend = shown no_backend (Ui (WarningBox no_backend)).
Proof.
  intros keyword shown. subst keyword shown. cbv beta.
  split; [|split; [reflexivity|]].
  { unfold _on_error.
    destruct (contains (str "reconnecting") (lower err)
              || contains (str "connection lost") (lower err)); reflexivity. }
  split; [|split; [|split; [|split; [|split; reflexivity]]]].
  - intros H. unfold _on_error.
    rewrite reader_error_reconnecting, reader_error_connection_lost, H. reflexivity.
  - intros H. unfold _on_error.
    rewrite reader_error_reconnecting, reader_error_connection_lost, H. reflexivity.
  - intros H. unfold downloader_error. cbv zeta. rewrite H. reflexivity.
  - intros H. unfold downloader_error. cbv zeta. rewrite H.
    split; [reflexivity|]. split; intros K; unfold _on_error;
      rewrite downloader_text_reconnecting, downloader_text_connection_lost, K;
      reflexivity.
Qed.

Lemma on_error_routing_witness :
  _on_error (reader_error (Exception (str "Connection refused")))
  = [Ui (PlaySound (str "error"));
     Ui (ChatViewAppend
           (str "[Error] Chat reader error: Connection refused. Retrying in 10 seconds..."));
     Ui (WarningBox
           (str "Chat reader error: Connection refused. Retrying in 10 seconds..."))]
  /\ _on_error (downloader_error (Exception (str "Video unavailable")))
     = [Ui (PlaySound (str "error"));
        Ui (ChatViewAppend (str "[Error] Chat downloader error: Video unavailable"));
        Ui (WarningBox (str "Chat downloader error: Video unavailable"))]
  /\ _on_error (reader_error (Exception (str "Connection Lost by peer")))
     = [Ui (PlaySound (str "error"));
        Ui (ChatViewAppend
              (str "[Error] Chat reader error: Connection Lost by peer. Retrying in 10 seconds..."));
        StatusMessage
          (str "Chat reader error: Connection Lost by peer. Retrying in 10 seconds...") 5000]
  /\ downloader_error (Exception (str "Chat is DISABLED")) = chat_disabled.
Proof.
  destruct (on_error_routing [] (Exception (str "Connection refused")))
    as [_ [_ [Hr _]]].
  destruct (on_error_routing [] (Exception (str "Video unavailable")))
    as [_ [_ [_ [_ [_ [Hd _]]]]]].
  destruct (on_error_routing [] (Exception (str "Connection Lost by peer")))
    as [_ [_ [_ [Hs _]]]].
  destruct (on_error_routing [] (Exception (str "Chat is DISABLED")))
    as [_ [_ [_ [_ [Hc _]]]]].
  split; [exact (Hr eq_refl)|].
  split; [exact (proj1 (proj2 (Hd eq_refl)) eq_refl)|].
  split; [exact (Hs eq_refl)|].
  exact (Hc eq_refl).
Defined.

(* ===================================================================== *)
(** * ChatReader: further properties *)
(* ===================================================================== *)

Lemma received_app tr1 tr2 : received (tr1 ++ tr2) = received tr1 ++ received tr2.
Proof. apply flat_map_app. Qed.

Lemma received_times_app tr1 tr2 :
  received_times (tr1 ++ tr2) = received_times tr1 ++ received_times tr2.
Proof. apply flat_map_app. Qed.

Lemma items_received t items :
  received (at_time t (map (fun c => Emit (message_received (normalize_item c))) items))
  = map normalize_item items
  /\ received_times
       (at_time t (map (fun c => Emit (message_received (normalize_item c))) items))
     = map (fun _ => t) items.
Proof.
  induction items as [|c items [IH1 IH2]]; cbn; [auto|].
  split; f_equal; assumption.
Qed.

Lemma step_stopped_signal w stop st t :
  st <> Stopped ->
  (fst (fst (step w stop (st, t))) = Stopped
   /\ stopped_times (snd (step w stop (st, t))) = [snd (fst (step w stop (st, t)))])
  \/ (fst (fst (step w stop (st, t))) <> Stopped
      /\ stopped_times (snd (step w stop (st, t))) = []).
Proof.
  intros Hst.
  destruct st as [|k|k chat j|k|d j|]; [| | | | |congruence]; cbn [step].
  - destruct (pytchat w); [right; cbn; split; [discriminate | reflexivity]|].
    destruct (ChatDownloader w); [|left; cbn; auto].
    destruct (get_chat w); [right | left]; cbn; split; auto; discriminate.
  - destruct (is_set stop t); [left; cbn; auto|].
    destruct (create w k); right; cbn; split; auto; discriminate.
  - destruct (is_alive chat j) as [[|]|e]; cbn [andb].
    + destruct (is_set stop t); cbn [negb]; [left; cbn; auto|].
      destruct (get_items chat j) as [items|e];
        [|right; cbn; split; auto; discriminate].
      right. cbn [fst snd]. split; [discriminate|].
      rewrite at_time_app, stopped_times_app.
      destruct (items_no_connect t items) as [_ [_ ->]]. reflexivity.
    + destruct (is_set stop t); [left; cbn; auto|].
      right; cbn; split; auto; discriminate.
    + right; cbn; split; auto; discriminate.
  - destruct (is_set stop t); right; cbn; split; auto; discriminate.
  - destruct (d j) as [wait m| |e]; [|left; cbn; auto..].
    destruct (is_set stop (t + wait)); [left; cbn; auto|].
    right. cbn [fst snd]. split; [discriminate|].
    destruct (str_eqb (message_type m) (str "text_message")); reflexivity.
Qed.

Lemma run_steps_stopped_signal w stop n :
  forall c,
    fst c <> Stopped ->
    (fst (fst (run_steps w stop n c)) = Stopped
     /\ stopped_times (snd (run_steps w stop n c)) = [snd (fst (run_steps w stop n c))])
    \/ (fst (fst (run_steps w stop n c)) <> Stopped
        /\ stopped_times (snd (run_steps w stop n c)) = []).
Proof.
  induction n as [|n IH]; intros [st t] Hst; [right; cbn; auto|].
  rewrite run_steps_S. cbn [fst snd] in *.
  rewrite stopped_times_app.
  destruct (step_stopped_signal w stop st t Hst) as [[H1 H2]|[H1 H2]].
  - left. destruct (step w stop (st, t)) as [[st' t'] acts]. cbn [fst snd] in *.
    subst st'. rewrite run_steps_stopped, H2. cbn. auto.
  - rewrite H2. cbn [app].
    apply (IH (fst (step w stop (st, t)))). exact H1.
Qed.

(** X12. The [stopped] signal is emitted exactly once, at the moment the
    thread reaches [Stopped], and never before: whatever the backends do
    and whenever [stop()] is called, a run that has ended has emitted it
    once, at its final clock reading, and a run that has not ended has not
    emitted it. *)
Theorem stopped_emitted_exactly_once (w : World) (stop : option N) (fuel : nat) :
  (fst (config_after w stop fuel) = Stopped ->
   stopped_times (snd (run w stop fuel)) = [snd (config_after w stop fuel)])
  /\ (fst (config_after w stop fuel) <> Stopped ->
      stopped_times (snd (run w stop fuel)) = []).
Proof.
  unfold config_after, run.
  destruct (run_steps_stopped_signal w stop fuel (Idle, 0%N)) as [[H1 H2]|[H1 H2]];
    [discriminate| |]; split; intros H; congruence.
Qed.

Lemma stopped_emitted_exactly_once_witness :
  stopped_times (snd (run world_fallback_disabled None 7)) = [0%N]
  /\ stopped_times (snd (run world_unreachable None 7)) = [].
Proof.
  split.
  - apply (stopped_emitted_exactly_once world_fallback_disabled None 7). reflexivity.
  - apply (stopped_emitted_exactly_once world_unreachable None 7). discriminate.
Defined.

Lemma step_timed_received lat w s L st t :
  (forall k j, get_ms lat k j <= L)%N ->
  forall t1, In t1 (received_times (snd (step_timed lat w (Some s) (st, t)))) ->
    (t1 < s + L)%N /\ (is_fallback_state st = true -> (t1 < s)%N).
Proof.
  intros HL t1.
  destruct st as [|k|k chat j|k|d j|]; cbn [step_timed step is_set].
  - destruct (pytchat w); [cbn; tauto|].
    destruct (ChatDownloader w); [|cbn; tauto].
    destruct (get_chat w); cbn; tauto.
  - destruct (N.leb_spec s t); [cbn; tauto|].
    destruct (create w k); cbn; tauto.
  - specialize (HL k j).
    destruct (is_alive chat j) as [[|]|e]; cbn [andb].
    + destruct (N.leb_spec s (t + is_alive_ms lat k j)) as [Hset|Hns]; cbn [negb];
        [cbn; tauto|].
      destruct (get_items chat j) as [items|e]; [|cbn; tauto].
      cbn [snd]. rewrite at_time_app, received_times_app.
      destruct (items_received (t + is_alive_ms lat k j + get_ms lat k j) items) as [_ ->].
      cbn. rewrite app_nil_r.
      intros Hin. apply in_map_iff in Hin. destruct Hin as [_ [<- _]].
      split; [lia | discriminate].
    + destruct (N.leb_spec s (t + is_alive_ms lat k j)); cbn; tauto.
    + cbn; tauto.
  - destruct (N.leb_spec s t); cbn; tauto.
  - destruct (d j) as [wait m| |e]; [|cbn; tauto..].
    destruct (N.leb_spec s (t + wait)) as [Hset|Hns]; [cbn; tauto|].
    destruct (str_eqb (message_type m) (str "text_message")); cbn; [|tauto].
    intros [<-|[]]. split; [lia | intros _; exact Hns].
  - cbn. tauto.
Qed.

Lemma step_timed_fallback lat w stop st t :
  pytchat w = false -> is_fallback_state st = true ->
  is_fallback_state (fst (fst (step_timed lat w stop (st, t)))) = true.
Proof.
  intros Hp Hst.
  destruct st as [|k|k chat j|k|d j|]; try discriminate Hst; cbn [step_timed step].
  - rewrite Hp. destruct (ChatDownloader w); [|reflexivity].
    destruct (get_chat w); reflexivity.
  - destruct (d j) as [wait m| |e]; [|reflexivity..].
    destruct (is_set stop (t + wait)); [reflexivity|].
    destruct (str_eqb (message_type m) (str "text_message")); reflexivity.
  - reflexivity.
Qed.

(** X13. After [stop()] has been called a message can still be handed on,
    but only from the [chat.get()] call that was in progress at the call:
    the flag is not read between that call and the emission of its items.
    So every [message_received] emission comes less than the duration of
    one [chat.get()] after the stop request, and with a [chat.get()] that
    returns at once none comes at or after the request.  On the fallback
    backend the flag is read after each item arrives, just before the item
    is handed on: every message handed on passed that test before the
    request. *)
Theorem message_after_stop_only_from_poll_in_progress (lat : Timing) (w : World)
    (s L : N) (fuel : nat) :
  (forall k j, get_ms lat k j <= L)%N ->
  (forall t1, In t1 (received_times (snd (run_timed lat w (Some s) fuel))) ->
     (t1 < s + L)%N)
  /\ (pytchat w = false ->
      forall t1, In t1 (received_times (snd (run_timed lat w (Some s) fuel))) ->
        (t1 < s)%N).
Proof.
  intros HL. unfold run_timed. split.
  - generalize (Idle, 0%N) as c.
    induction fuel as [|n IH]; intros [st t] t1; [cbn; tauto|].
    rewrite run_steps_timed_S. cbn [snd]. rewrite received_times_app, in_app_iff.
    intros [H|H]; [exact (proj1 (step_timed_received lat w s L st t HL t1 H))|].
    exact (IH _ t1 H).
  - intros Hp.
    assert (Hst : is_fallback_state (fst (Idle, 0%N)) = true) by reflexivity.
    revert Hst. generalize (Idle, 0%N) as c.
    induction fuel as [|n IH]; intros [st t] Hst t1; [cbn; tauto|].
    rewrite run_steps_timed_S. cbn [fst snd] in *.
    rewrite received_times_app, in_app_iff.
    intros [H|H]; [exact (proj2 (step_timed_received lat w s L st t HL t1 H) Hst)|].
    exact (IH _ (step_timed_fallback lat w (Some s) st t Hp Hst) t1 H).
Qed.

Lemma message_after_stop_only_from_poll_in_progress_witness :
  received_times (snd (run_timed slow_get world_live (Some 100%N) 4)) = [300%N]
  /\ (300 < 100 + 300)%N.
Proof.
  split; [reflexivity|].
  apply (message_after_stop_only_from_poll_in_progress slow_get world_live
           100%N 300%N 4).
  - intros k j. cbn. lia.
  - vm_compute. tauto.
Defined.

Lemma is_set_earlier stop t t' :
  (t <= t')%N -> is_set stop t' = false -> is_set stop t = false.
Proof.
  destruct stop as [s|]; cbn; [|reflexivity].
  rewrite !N.leb_gt. lia.
Qed.



Lemma plain_message_sound ui m wdw :
  chat_mode ui = CHAT_MODE_STANDARD -> plain_text_message m ->
  sounds (snd (_on_message ui m wdw)) = [str "chat"].
Proof.
  intros Hmode [Ht [Hmod Hver]]. unfold _on_message.
  rewrite Hmode, str_eqb_refl, Ht, Hmod, Hver. reflexivity.
Qed.

Lemma step_fallback w stop st t :
  pytchat w = false -> is_fallback_state st = true ->
  is_fallback_state (fst (fst (step w stop (st, t)))) = true
  /\ forall m, In m (received (snd (step w stop (st, t)))) ->
       plain_text_message m.
Proof.
  intros Hp Hst.
  destruct st as [|k|k chat j|k|d j|]; try discriminate Hst; cbn [step].
  - rewrite Hp. destruct (ChatDownloader w); [|cbn; tauto].
    destruct (get_chat w); cbn; tauto.
  - destruct (d j) as [wait m| |e]; [|cbn; tauto..].
    destruct (is_set stop (t + wait)); [cbn; tauto|].
    destruct (str_eqb (message_type m) (str "text_message")); cbn; [|tauto].
    split; [reflexivity|]. intros m' [<-|[]]. repeat split.
  - cbn. tauto.
Qed.

(** X15. On the fallback backend every message handed on is a plain text
    message without moderator or verification marks, whatever the stream
    contained; so in standard mode each of them plays the plain chat sound,
    never the donation, moderator or verified sound. *)
Theorem fallback_messages_are_plain (w : World) (stop : option N) (fuel : nat) :
  pytchat w = false ->
  forall m,
    In m (received (snd (run w stop fuel))) ->
    plain_text_message m
    /\ forall ui wdw,
         chat_mode ui = CHAT_MODE_STANDARD ->
         sounds (snd (_on_message ui m wdw)) = [str "chat"].
Proof.
  intros Hp m Hin.
  assert (Hplain : plain_text_message m).
  { revert Hin. unfold run.
    assert (Hst : is_fallback_state (fst (Idle, 0%N)) = true) by reflexivity.
    revert Hst. generalize (Idle, 0%N) as c.
    induction fuel as [|n IH]; intros [st t] Hst; [cbn; tauto|].
    rewrite run_steps_S. cbn [fst snd] in *.
    destruct (step_fallback w stop st t Hp Hst) as [H1 H2].
    rewrite received_app, in_app_iff. intros [H|H]; [exact (H2 m H)|].
    exact (IH _ H1 H). }
  split; [exact Hplain|].
  intros ui wdw Hmode. apply plain_message_sound; assumption.
Qed.

Lemma fallback_messages_are_plain_witness :
  let ui := {| chat_mode := str "Standard (read messages)";
               summary_interval := 5; quick_summary_count_sb := 50 |} in
  let wdw := {| pending_messages := []; last_summary_ts := 0%Q; reader := None |} in
  length (received (snd (run world_fallback_live None 4))) = 2
  /\ forall m,
       In m (received (snd (run world_fallback_live None 4))) ->
       sounds (snd (_on_message ui m wdw)) = [str "chat"].
Proof.
  intros ui wdw. split; [reflexivity|].
  intros m Hin.
  apply (fallback_messages_are_plain world_fallback_live None 4 eq_refl m Hin).
  reflexivity.
Defined.

(* ===================================================================== *)
(** * TTSManager: properties *)
(* ===================================================================== *)

(** X16. [speak] never raises and never loses the text: whatever the
    configuration, the platform and the state of the manager, it returns
    normally after at least one action, and every action it takes carries
    the text, spoken or at the end of a printed line; when the call of the
    speech output raises, the exception is caught and the text is printed
    instead. *)
Theorem speak_never_raises_nor_drops (cfg : TtsCfg) (pf : Platform)
    (system_out : SystemOut) (line : pystr) :
  exists acts,
    speak cfg pf system_out line = (Ok tt, acts)
    /\ acts <> []
    /\ Forall (carries line) acts
    /\ (forall e out,
          output_speak pf = Raise e -> In (OutputSpeak out line) acts ->
          exists notice,
            last acts (PrintLine []) = PrintLine (notice ++ str " " ++ line)).
Proof.
  assert (Hsp : forall notice, exists acts,
             speak_or_print pf system_out line notice = (Ok tt, acts)
             /\ acts <> []
             /\ Forall (carries line) acts
             /\ (forall e out,
                   output_speak pf = Raise e -> In (OutputSpeak out line) acts ->
                   exists notice',
                     last acts (PrintLine []) = PrintLine (notice' ++ str " " ++ line))).
  { intros notice. unfold speak_or_print, print2.
    destruct (usable system_out); [destruct (output_speak pf) as [u|e0] eqn:Ho|];
      eexists; (split; [reflexivity|]); (split; [discriminate|]);
      (split; [repeat constructor; try (eexists; rewrite app_assoc; reflexivity)|]).
    - intros e out He. discriminate He.
    - intros e out _ _. exists notice. reflexivity.
    - intros e out _ _. exists notice. reflexivity. }
  unfold speak.
  destruct (str_eqb (tts_option cfg) TTS_OPTION_SYSTEM).
  - destruct (starts_with (str "SAPI5") (system_tts_backend cfg)); [|apply Hsp].
    destruct (sapi_direct pf); [|apply Hsp].
    eexists. split; [reflexivity|]. split; [discriminate|].
    split; [repeat constructor|]. intros e out _ [H|[]]. discriminate H.
  - unfold print2. eexists. split; [reflexivity|]. split; [discriminate|].
    split; [repeat constructor; eexists; rewrite app_assoc; reflexivity|].
    intros e out _ [H|[]]. discriminate H.
Qed.

Lemma speak_never_raises_nor_drops_witness :
  let cfg := {| tts_option := str "System (screen reader/SAPI5)";
                system_tts_backend := str "Screen reader (Auto)";
                tts_voice := [] |} in
  let pf := {| sapi_direct := false; sapi5_lib := None; auto_lib := Some true;
               output_speak := Raise (Exception (str "NVDA not running")) |} in
  speak cfg pf (_init_system_tts cfg pf) (str "a: hi")
  = (Ok tt, [OutputSpeak AutoOutput (str "a: hi");
             PrintLine (str "[System Auto TTS unavailable] a: hi")]).
Proof.
  intros cfg pf.
  destruct (speak_never_raises_nor_drops cfg pf (_init_system_tts cfg pf) (str "a: hi"))
    as [acts [E _]].
  reflexivity.
Defined.

(** X17. Speech is produced only through the system option: when the
    configured TTS option is any other text (the cloud providers), [speak]
    only prints one stub line and hands nothing to a speech backend; and
    whenever something is handed to a speech backend, the option is the
    system one. *)
Theorem speak_only_system_option_speaks (cfg : TtsCfg) (pf : Platform)
    (system_out : SystemOut) (line : pystr) :
  (tts_option cfg <> TTS_OPTION_SYSTEM ->
   speak cfg pf system_out line
   = (Ok tt, [PrintLine (str "[" ++ tts_option cfg ++ str " stub] " ++ line)]))
  /\ (existsb is_speech (snd (speak cfg pf system_out line)) = true ->
      tts_option cfg = TTS_OPTION_SYSTEM).
Proof.
  unfold speak.
  destruct (str_eqb (tts_option cfg) TTS_OPTION_SYSTEM) eqn:E.
  - apply str_eqb_eq in E. split; [contradiction | auto].
  - split; [|cbn; discriminate].
    intros _. unfold print2. rewrite <- !app_assoc. reflexivity.
Qed.

Lemma speak_only_system_option_speaks_witness :
  let cfg := {| tts_option := str "OpenAI TTS";
                system_tts_backend := str "SAPI5 (Windows)";
                tts_voice := str "nova" |} in
  let pf := {| sapi_direct := true; sapi5_lib := Some true; auto_lib := Some true;
               output_speak := Ok tt |} in
  speak cfg pf (_init_system_tts cfg pf) (str "a: hi")
  = (Ok tt, [PrintLine (str "[OpenAI TTS stub] a: hi")]).
Proof.
  intros cfg pf.
  apply (speak_only_system_option_speaks cfg pf (_init_system_tts cfg pf) (str "a: hi")).
  discriminate.
Defined.

(** X18. A manager built for the SAPI5 engine never falls back to the
    automatic screen-reader output: the screen-reader output is never
    created and never spoken through.  With the same configuration at
    construction and at the call, and the system option selected, [speak]
    starts a SAPI thread when pywin32 is available; else, when the
    accessible_output2 SAPI5 output could be created, it speaks through that
    output, and prints the "unavailable" line as well only if that call
    raises; else it only prints the "unavailable" line. *)
Theorem sapi5_choice_never_uses_screen_reader (cfg : TtsCfg) (pf : Platform)
    (line : pystr) :
  starts_with (str "SAPI5") (system_tts_backend cfg) = true ->
  _init_system_tts cfg pf <> AutoOutput
  /\ (forall l, ~ In (OutputSpeak AutoOutput l)
                  (snd (speak cfg pf (_init_system_tts cfg pf) line)))
  /\ (tts_option cfg = TTS_OPTION_SYSTEM -> sapi_direct pf = true ->
      snd (speak cfg pf (_init_system_tts cfg pf) line)
      = [SapiThread line
           match tts_voice cfg with [] => None | _ :: _ => Some (tts_voice cfg) end])
  /\ (tts_option cfg = TTS_OPTION_SYSTEM -> sapi_direct pf = false ->
      sapi5_lib pf <> Some true ->
      snd (speak cfg pf (_init_system_tts cfg pf) line)
      = [PrintLine (str "[System SAPI5 unavailable] " ++ line)])
  /\ (_init_system_tts cfg pf
      = if sapi_direct pf then SAPI5_DIRECT
        else match sapi5_lib pf with Some true => Sapi5Output | _ => NoOutput end)
  /\ (tts_option cfg = TTS_OPTION_SYSTEM -> sapi_direct pf = false ->
      sapi5_lib pf = Some true ->
      forall u, output_speak pf = Ok u ->
      snd (speak cfg pf (_init_system_tts cfg pf) line)
      = [OutputSpeak Sapi5Output line])
  /\ (tts_option cfg = TTS_OPTION_SYSTEM -> sapi_direct pf = false ->
      sapi5_lib pf = Some true ->
      forall e, output_speak pf = Raise e ->
      snd (speak cfg pf (_init_system_tts cfg pf) line)
      = [OutputSpeak Sapi5Output line;
         PrintLine (str "[System SAPI5 unavailable] " ++ line)]).
Proof.
  intros Hb. unfold speak, _init_system_tts. rewrite Hb.
  split; [|split; [|split; [|split; [|split; [|split; [|]]]]]].
  - destruct (sapi_direct pf); [discriminate|].
    destruct (sapi5_lib pf) as [[|]|]; discriminate.
  - intros l.
    destruct (str_eqb (tts_option cfg) TTS_OPTION_SYSTEM);
      [|cbn; intros [H|[]]; discriminate H].
    destruct (sapi_direct pf); [cbn; intros [H|[]]; discriminate H|].
    unfold speak_or_print, print2.
    destruct (sapi5_lib pf) as [[|]|]; cbn [usable];
      [destruct (output_speak pf)|..]; cbn;
      intuition discriminate.
  - intros -> ->. rewrite str_eqb_refl. reflexivity.
  - intros -> -> Hl. rewrite str_eqb_refl.
    unfold speak_or_print, print2.
    destruct (sapi5_lib pf) as [[|]|]; [congruence|..]; reflexivity.
  - reflexivity.
  - intros -> -> -> u Hu. rewrite str_eqb_refl.
    unfold speak_or_print. cbn [usable]. rewrite Hu. reflexivity.
  - intros -> -> -> e He. rewrite str_eqb_refl.
    unfold speak_or_print. cbn [usable]. rewrite He. reflexivity.
Qed.

Lemma sapi5_choice_never_uses_screen_reader_witness :
  let cfg := {| tts_option := str "System (screen reader/SAPI5)";
                system_tts_backend := str "SAPI5 (Windows)";
                tts_voice := str "Microsoft Zira Desktop" |} in
  let pf := {| sapi_direct := false; sapi5_lib := None; auto_lib := Some true;
               output_speak := Ok tt |} in
  let pf2 := {| sapi_direct := false; sapi5_lib := Some true; auto_lib := Some true;
                output_speak := Ok tt |} in
  let pf3 := {| sapi_direct := false; sapi5_lib := Some true; auto_lib := Some true;
                output_speak := Raise (Exception (str "COM error")) |} in
  snd (speak cfg pf (_init_system_tts cfg pf) (str "a: hi"))
  = [PrintLine (str "[System SAPI5 unavailable] a: hi")]
  /\ snd (speak cfg pf2 (_init_system_tts cfg pf2) (str "a: hi"))
     = [OutputSpeak Sapi5Output (str "a: hi")]
  /\ snd (speak cfg pf3 (_init_system_tts cfg pf3) (str "a: hi"))
     = [OutputSpeak Sapi5Output (str "a: hi");
        PrintLine (str "[System SAPI5 unavailable] a: hi")].
Proof.
  intros cfg pf pf2 pf3.
  destruct (sapi5_choice_never_uses_screen_reader cfg pf (str "a: hi") eq_refl)
    as [_ [_ [_ [H1 _]]]].
  destruct (sapi5_choice_never_uses_screen_reader cfg pf2 (str "a: hi") eq_refl)
    as [_ [_ [_ [_ [_ [H2 _]]]]]].
  destruct (sapi5_choice_never_uses_screen_reader cfg pf3 (str "a: hi") eq_refl)
    as [_ [_ [_ [_ [_ [_ H3]]]]]].
  split; [exact (H1 eq_refl eq_refl ltac:(discriminate))|].
  split; [exact (H2 eq_refl eq_refl eq_refl tt eq_refl)|].
  exact (H3 eq_refl eq_refl eq_refl _ eq_refl).
Defined.

(* ===================================================================== *)
(** * Voice listing: properties *)
(* ===================================================================== *)

Lemma str_ltb_irrefl a : str_ltb a a = false.
Proof.
  induction a as [|c a IH]; simpl; [reflexivity|].
  rewrite N.ltb_irrefl. exact IH.
Qed.

Lemma str_ltb_trans a b c :
  str_ltb a b = true -> str_ltb b c = true -> str_ltb a c = true.
Proof.
  revert b c. induction a as [|x a IH]; intros [|y b] [|z c]; simpl;
    try discriminate; try reflexivity.
  destruct (N.ltb_spec x y), (N.ltb_spec y x), (N.ltb_spec y z), (N.ltb_spec z y),
    (N.ltb_spec x z), (N.ltb_spec z x);
    try discriminate; try reflexivity; try lia.
  apply IH.
Qed.

Lemma str_ltb_total a b :
  str_ltb a b = false -> str_eqb a b = false -> str_ltb b a = true.
Proof.
  revert b. induction a as [|x a IH]; intros [|y b]; simpl;
    try discriminate; try reflexivity.
  destruct (N.ltb_spec x y), (N.ltb_spec y x), (N.eqb_spec x y);
    try discriminate; try reflexivity; try lia.
  cbn [andb]. apply IH.
Qed.

Lemma insert_uniq_in x y l : In y (insert_uniq x l) <-> y = x \/ In y l.
Proof.
  induction l as [|z l IH]; simpl; [intuition|].
  destruct (str_ltb x z); [simpl; intuition|].
  destruct (str_eqb x z) eqn:E.
  - apply str_eqb_eq in E. subst z. simpl. intuition.
  - simpl. rewrite IH. intuition.
Qed.

Lemma insert_uniq_sorted x l :
  Sorted str_lt l -> Sorted str_lt (insert_uniq x l).
Proof.
  induction l as [|y l IH]; intros Hs; simpl; [repeat constructor|].
  inversion Hs as [|? ? Hl Hhd]; subst.
  destruct (str_ltb x y) eqn:Hxy; [constructor; [exact Hs | constructor; exact Hxy]|].
  destruct (str_eqb x y) eqn:Exy; [exact Hs|].
  constructor; [apply IH, Hl|].
  assert (Hyx : str_lt y x) by (apply str_ltb_total; assumption).
  destruct l as [|z l]; simpl; [constructor; exact Hyx|].
  inversion Hhd; subst.
  destruct (str_ltb x z); [constructor; exact Hyx|].
  destruct (str_eqb x z); constructor; assumption.
Qed.

Lemma sorted_set_sorted l : Sorted str_lt (sorted_set l).
Proof.
  induction l as [|x l IH]; simpl; [constructor | apply insert_uniq_sorted, IH].
Qed.

Lemma sorted_set_in y l : In y (sorted_set l) <-> In y l.
Proof.
  induction l as [|x l IH]; simpl; [tauto|].
  rewrite insert_uniq_in, IH. intuition.
Qed.

Lemma strongly_sorted_nodup l : StronglySorted str_lt l -> NoDup l.
Proof.
  induction 1 as [|x l Hs IH Hall]; constructor; [|exact IH].
  intros Hin. rewrite Forall_forall in Hall. specialize (Hall x Hin).
  unfold str_lt in Hall. rewrite str_ltb_irrefl in Hall. discriminate.
Qed.

Lemma voice_ids_in x voices : In x (voice_ids voices) <-> In (Some x) voices /\ x <> [].
Proof.
  unfold voice_ids. rewrite in_flat_map. split.
  - intros [[[|c id]|] [Hin Hx]]; simpl in Hx; try contradiction.
    destruct Hx as [<-|[]]. split; [exact Hin | discriminate].
  - intros [Hin Hne]. exists (Some x). split; [exact Hin|].
    destruct x; [congruence | left; reflexivity].
Qed.

(** X19. The Polly voice list is in strictly increasing order, so without
    duplicates, and it holds exactly the non-empty ids the service
    reported; it is empty, with nothing else happening, when the library or
    one of the three credentials is missing, and empty when the service
    call raises. *)
Theorem list_polly_voices_sorted_distinct (boto3 : bool)
    (aws_key aws_secret region : pystr)
    (describe_voices : result (list (option pystr))) :
  let out := list_polly_voices boto3 aws_key aws_secret region describe_voices in
  StronglySorted str_lt out
  /\ NoDup out
  /\ (forall voices,
        boto3 = true -> aws_key <> [] -> aws_secret <> [] -> region <> [] ->
        describe_voices = Ok voices ->
        forall x, In x out <-> In (Some x) voices /\ x <> [])
  /\ (boto3 = false \/ aws_key = [] \/ aws_secret = [] \/ region = [] -> out = [])
  /\ (forall e, describe_voices = Raise e -> out = []).
Proof.
  intros out.
  assert (Hs : StronglySorted str_lt out).
  { subst out. unfold list_polly_voices.
    destruct (negb _); [constructor|].
    destruct describe_voices; [|constructor].
    apply Sorted_StronglySorted; [|apply sorted_set_sorted].
    intros x1 x2 x3. apply str_ltb_trans. }
  split; [exact Hs|]. split; [apply strongly_sorted_nodup, Hs|].
  subst out. unfold list_polly_voices. split; [|split].
  - intros voices -> Hk Hsec Hr -> x.
    destruct aws_key; [congruence|]. destruct aws_secret; [congruence|].
    destruct region; [congruence|]. cbn [nonempty andb negb].
    rewrite sorted_set_in. apply voice_ids_in.
  - intros [H|[H|[H|H]]]; rewrite H; [reflexivity|..].
    + destruct boto3; reflexivity.
    + destruct boto3, (nonempty aws_key); reflexivity.
    + destruct boto3, (nonempty aws_key), (nonempty aws_secret); reflexivity.
  - intros e ->. destruct (negb _); reflexivity.
Qed.

Lemma list_polly_voices_sorted_distinct_witness :
  let voices := [Some (str "Joanna"); Some (str "Amy"); None; Some [];
                 Some (str "Joanna"); Some (str "Brian")] in
  list_polly_voices true (str "AKIA") (str "secret") (str "us-east-1") (Ok voices)
  = [str "Amy"; str "Brian"; str "Joanna"]
  /\ (In (str "Amy")
        (list_polly_voices true (str "AKIA") (str "secret") (str "us-east-1") (Ok voices))
      <-> In (Some (str "Amy")) voices /\ str "Amy" <> []).
Proof.
  intros voices. split; [reflexivity|].
  apply (list_polly_voices_sorted_distinct true (str "AKIA") (str "secret")
           (str "us-east-1") (Ok voices));
    first [reflexivity | discriminate].
Defined.

(* ===================================================================== *)
(** * Configuration: properties *)
(* ===================================================================== *)

Lemma str_eqb_neq a b : a <> b -> str_eqb a b = false.
Proof.
  intros H. destruct (str_eqb a b) eqn:E; [|reflexivity].
  apply str_eqb_eq in E. contradiction.
Qed.

Lemma dict_get_set_same k v d : dict_get k (dict_set k v d) = Some v.
Proof.
  induction d as [|[k' v'] d IH]; simpl.
  - rewrite str_eqb_refl. reflexivity.
  - destruct (str_eqb k k') eqn:E; simpl; [rewrite str_eqb_refl; reflexivity|].
    rewrite E. exact IH.
Qed.

Lemma dict_get_set_other k k' v d :
  k <> k' -> dict_get k (dict_set k' v d) = dict_get k d.
Proof.
  intros Hne. induction d as [|[k0 v0] d IH]; simpl.
  - rewrite (str_eqb_neq _ _ Hne). reflexivity.
  - destruct (str_eqb k' k0) eqn:E; simpl.
    + apply str_eqb_eq in E. subst k0. rewrite (str_eqb_neq _ _ Hne). reflexivity.
    + destruct (str_eqb k k0); [reflexivity | exact IH].
Qed.

Lemma dict_update_other k other :
  forall d, ~ In k (dict_keys other) -> dict_get k (dict_update d other) = dict_get k d.
Proof.
  unfold dict_update, dict_keys.
  induction other as [|[k0 v0] other IH]; intros d Hk; simpl; [reflexivity|].
  simpl in Hk. rewrite IH by tauto.
  apply dict_get_set_other. intros ->. apply Hk. left. reflexivity.
Qed.

Lemma dict_update_entry k v other :
  forall d,
    NoDup (dict_keys other) -> In (k, v) other ->
    dict_get k (dict_update d other) = Some v.
Proof.
  unfold dict_update, dict_keys.
  induction other as [|[k0 v0] other IH]; intros d Hnd Hin; simpl; [contradiction|].
  simpl in Hnd. inversion Hnd as [|? ? Hnot Hnd']; subst.
  destruct Hin as [Heq|Hin].
  - injection Heq as -> ->.
    change (fold_left (fun acc kv => dict_set (fst kv) (snd kv) acc) other (dict_set k v d))
      with (dict_update (dict_set k v d) other).
    rewrite dict_update_other by exact Hnot. apply dict_get_set_same.
  - apply IH; assumption.
Qed.

Lemma dict_update_keeps_keys k other :
  forall d, dict_get k d <> None -> dict_get k (dict_update d other) <> None.
Proof.
  unfold dict_update.
  induction other as [|[k0 v0] other IH]; intros d Hk; simpl; [exact Hk|].
  apply IH. destruct (str_eqb k k0) eqn:E.
  - apply str_eqb_eq in E. subst k0. rewrite dict_get_set_same. discriminate.
  - rewrite dict_get_set_other; [exact Hk|].
    intros ->. rewrite str_eqb_refl in E. discriminate.
Qed.

Lemma dict_set_keeps_key k k0 v d :
  dict_get k d <> None -> dict_get k (dict_set k0 v d) <> None.
Proof.
  intros Hk. destruct (str_eqb k k0) eqn:E.
  - apply str_eqb_eq in E. subst k0. rewrite dict_get_set_same. discriminate.
  - rewrite dict_get_set_other; [exact Hk|].
    intros ->. rewrite str_eqb_refl in E. discriminate.
Qed.

Lemma merge_from_seq_keeps_keys k items :
  forall d, dict_get k d <> None -> dict_get k (fst (merge_from_seq d items)) <> None.
Proof.
  induction items as [|item rest IH]; intros d Hk; cbn [merge_from_seq]; [exact Hk|].
  destruct (update_pair item) as [[[k0|] v]|]; [| |exact Hk].
  - apply IH, dict_set_keeps_key, Hk.
  - apply IH, Hk.
Qed.

Lemma merge_from_seq_accepted items :
  forall d,
    (forall x, In x items -> update_pair x <> None) ->
    merge_from_seq d items = (dict_update d (seq_pairs items), false).
Proof.
  induction items as [|item rest IH]; intros d Hok; [reflexivity|].
  cbn [merge_from_seq seq_pairs flat_map].
  assert (Hrest : forall x, In x rest -> update_pair x <> None)
    by (intros x Hx; apply Hok; right; exact Hx).
  destruct (update_pair item) as [[[k0|] v]|] eqn:E.
  - rewrite (IH _ Hrest). reflexivity.
  - rewrite (IH _ Hrest). reflexivity.
  - exfalso. apply (Hok item); [left; reflexivity | exact E].
Qed.

Lemma merge_from_seq_raises pre bad rest :
  forall d,
    (forall x, In x pre -> update_pair x <> None) ->
    update_pair bad = None ->
    merge_from_seq d (pre ++ bad :: rest) = (dict_update d (seq_pairs pre), true).
Proof.
  induction pre as [|item pre IH]; intros d Hok Hbad.
  - cbn [app merge_from_seq]. rewrite Hbad. reflexivity.
  - cbn [app merge_from_seq seq_pairs flat_map].
    assert (Hpre : forall x, In x pre -> update_pair x <> None)
      by (intros x Hx; apply Hok; right; exact Hx).
    destruct (update_pair item) as [[[k0|] v]|] eqn:E.
    + rewrite (IH _ Hpre Hbad). reflexivity.
    + rewrite (IH _ Hpre Hbad). reflexivity.
    + exfalso. apply (Hok item); [left; reflexivity | exact E].
Qed.

(** X20. Loading the configuration fails only when the directories cannot
    be created.  Otherwise it yields a configuration in which every key of
    the defaults is present.  With no file, or a file that cannot be read
    or parsed, it is exactly the defaults.  With a file that holds an
    object, each member replaces or adds its key and every other key keeps
    its default.  With a file that holds anything else the update raises
    and the error is swallowed, but what it stored before stays: a number,
    a boolean, null or a string leaves the defaults; an array is read as
    key/value pairs, and the pairs before its first element that is not
    one are stored, so [[["window_w", 1], 5]] yields the defaults with
    [window_w] set to 1. *)
Theorem load_config_keeps_defaults (file : option (result Json)) :
  exists cfg,
    load_config (Ok tt) file = Ok cfg
    /\ (forall k, dict_get k DEFAULT_CONFIG <> None -> dict_get k cfg <> None)
    /\ (file = None \/ (exists e, file = Some (Raise e)) -> cfg = DEFAULT_CONFIG)
    /\ (forall members,
          file = Some (Ok (JsObject members)) -> NoDup (map fst members) ->
          (forall k v, In (k, v) members -> dict_get k cfg = Some (json_value v))
          /\ (forall k, ~ In k (map fst members) ->
              dict_get k cfg = dict_get k DEFAULT_CONFIG))
    /\ (file = Some (Ok JsNull) \/ (exists b, file = Some (Ok (JsBool b)))
        \/ (exists z, file = Some (Ok (JsInt z))) \/ file = Some (Ok JsFloat)
        \/ (exists s, file = Some (Ok (JsStr s))) ->
        cfg = DEFAULT_CONFIG)
    /\ (forall items,
          file = Some (Ok (JsArray items)) ->
          (forall x, In x items -> update_pair x <> None) ->
          cfg = dict_update DEFAULT_CONFIG (seq_pairs items))
    /\ (forall pre bad rest,
          file = Some (Ok (JsArray (pre ++ bad :: rest))) ->
          (forall x, In x pre -> update_pair x <> None) ->
          update_pair bad = None ->
          cfg = dict_update DEFAULT_CONFIG (seq_pairs pre))
    /\ (file = Some (Ok (JsArray [JsArray [JsStr (str "window_w"); JsInt 1]; JsInt 5])) ->
        dict_get (str "window_w") cfg = Some (JInt 1)).
Proof.
  unfold load_config.
  destruct file as [[loaded|e]|].
  - exists (fst (update_from DEFAULT_CONFIG loaded)). split; [reflexivity|].
    split; [|split; [intros [H|[e H]]; discriminate H|]].
    { intros k Hk. destruct loaded as [|b|z| |s|items|members]; cbn [update_from fst];
        try exact Hk.
      - apply merge_from_seq_keeps_keys, Hk.
      - apply merge_from_seq_keeps_keys, Hk.
      - apply dict_update_keeps_keys, Hk. }
    split; [|split; [|split; [|split]]].
    + intros members H Hnd. injection H as ->. cbn [update_from fst].
      assert (Hkeys : dict_keys (map (fun kv => (fst kv, json_value (snd kv))) members)
                      = map fst members).
      { unfold dict_keys. rewrite map_map. reflexivity. }
      split.
      * intros k v Hin. apply dict_update_entry; [rewrite Hkeys; exact Hnd|].
        apply in_map_iff. exists (k, v). split; [reflexivity | exact Hin].
      * intros k Hk. apply dict_update_other. rewrite Hkeys. exact Hk.
    + intros [H|[[b H]|[[z H]|[H|[s H]]]]]; injection H as ->; try reflexivity.
      cbn [update_from]. destruct s as [|c s]; reflexivity.
    + intros items H Hok. injection H as ->. cbn [update_from].
      rewrite (merge_from_seq_accepted items _ Hok). reflexivity.
    + intros pre bad rest H Hok Hbad. injection H as ->. cbn [update_from].
      rewrite (merge_from_seq_raises pre bad rest _ Hok Hbad). reflexivity.
    + intros H. injection H as ->. reflexivity.
  - exists DEFAULT_CONFIG. split; [reflexivity|]. split; [auto|].
    split; [reflexivity|].
    split; [discriminate|]. split; [reflexivity|].
    split; [discriminate|]. split; discriminate.
  - exists DEFAULT_CONFIG. split; [reflexivity|]. split; [auto|].
    split; [reflexivity|].
    split; [discriminate|]. split; [reflexivity|].
    split; [discriminate|]. split; discriminate.
Qed.

Lemma load_config_keeps_defaults_witness :
  let members := [(str "summary_interval_minutes", JsInt 2);
                  (str "favourite", JsStr (str "yes"))] in
  let pre := [JsArray [JsStr (str "window_h"); JsInt 480]; JsStr (str "ab")] in
  (exists cfg,
     load_config (Ok tt) (Some (Ok (JsObject members))) = Ok cfg
     /\ dict_get (str "summary_interval_minutes") cfg = Some (JInt 2)
     /\ dict_get (str "quick_summary_count") cfg = Some (JInt 50)
     /\ dict_get (str "favourite") cfg = Some (JStr (str "yes")))
  /\ (exists cfg,
        load_config (Ok tt) (Some (Ok (JsArray (pre ++ JsInt 5 :: [JsArray [JsStr (str "window_w"); JsInt 1]]))))
        = Ok cfg
        /\ cfg = dict_update DEFAULT_CONFIG
                   [(str "window_h", JInt 480); (str "a", JStr (str "b"))])
  /\ (exists cfg,
        load_config (Ok tt) (Some (Ok (JsStr (str "window_w")))) = Ok cfg
        /\ cfg = DEFAULT_CONFIG).
Proof.
  intros members pre.
  destruct (load_config_keeps_defaults (Some (Ok (JsObject members))))
    as [cfg [E [_ [_ [H _]]]]].
  destruct (load_config_keeps_defaults
              (Some (Ok (JsArray (pre ++ JsInt 5 :: [JsArray [JsStr (str "window_w"); JsInt 1]])))))
    as [cfg2 [E2 [_ [_ [_ [_ [_ [H2 _]]]]]]]].
  destruct (load_config_keeps_defaults (Some (Ok (JsStr (str "window_w")))))
    as [cfg3 [E3 [_ [_ [_ [H3 _]]]]]].
  split; [|split].
  - exists cfg. split; [exact E|].
    destruct (H members eq_refl) as [Hin Hout].
    { repeat constructor; simpl; intuition discriminate. }
    split; [exact (Hin _ _ (or_introl eq_refl))|].
    split; [|exact (Hin _ _ (or_intror (or_introl eq_refl)))].
    rewrite Hout; [reflexivity|]. simpl. intuition discriminate.
  - exists cfg2. split; [exact E2|].
    apply (H2 pre (JsInt 5) [JsArray [JsStr (str "window_w"); JsInt 1]] eq_refl).
    + intros x [<-|[<-|[]]]; discriminate.
    + reflexivity.
  - exists cfg3. split; [exact E3|].
    apply H3. right. right. right. right. exists (str "window_w"). reflexivity.
Defined.

(** X21. What saving the options dialog stores.  The region is never
    empty: a blank region field is replaced by "us-east-1", any other is
    stored without surrounding whitespace.  The five key fields (OpenAI,
    Google Cloud, AWS access key, AWS secret key, ElevenLabs) and the voice
    field are stored without surrounding whitespace; the sound pack and the
    system engine are stored as selected.  Every configuration key the
    dialog does not show keeps its value. *)
Theorem get_updated_config_fields (cfg : dict) (dlg : OptionsDialog) :
  let new := get_updated_config cfg dlg in
  (exists r,
     dict_get (str "aws_region") new = Some (JStr r)
     /\ r <> []
     /\ (strip (aws_region dlg) = [] -> r = str "us-east-1")
     /\ (strip (aws_region dlg) <> [] -> r = strip (aws_region dlg)))
  /\ dict_get (str "openai_api_key") new = Some (JStr (strip (openai_key dlg)))
  /\ dict_get (str "tts_voice") new = Some (JStr (strip (voice dlg)))
  /\ (forall k, ~ In k dialog_keys -> dict_get k new = dict_get k cfg)
  /\ dict_get (str "google_cloud_tts_api_key") new = Some (JStr (strip (gcloud_key dlg)))
  /\ dict_get (str "aws_access_key_id") new = Some (JStr (strip (aws_key dlg)))
  /\ dict_get (str "aws_secret_access_key") new = Some (JStr (strip (aws_secret dlg)))
  /\ dict_get (str "elevenlabs_api_key") new = Some (JStr (strip (eleven_key dlg)))
  /\ dict_get (str "sound_pack") new = Some (JStr (sound_pack_combo dlg))
  /\ dict_get (str "system_tts_backend") new = Some (JStr (system_tts_mode dlg))
  /\ (forall k v, dict_get k new = Some v -> ~ In k dialog_keys ->
        dict_get k cfg = Some v)
  /\ (forall k, In k dialog_keys -> exists x, dict_get k new = Some (JStr x)).
Proof.
  intros new. subst new. unfold get_updated_config.
  assert (Hnd : NoDup dialog_keys).
  { unfold dialog_keys. repeat constructor; simpl; intuition discriminate. }
  assert (Hother : forall k, ~ In k dialog_keys ->
            dict_get k (dict_update cfg
              [(str "openai_api_key", JStr (strip (openai_key dlg)));
               (str "google_cloud_tts_api_key", JStr (strip (gcloud_key dlg)));
               (str "aws_access_key_id", JStr (strip (aws_key dlg)));
               (str "aws_secret_access_key", JStr (strip (aws_secret dlg)));
               (str "aws_region", JStr (str_or (strip (aws_region dlg)) (str "us-east-1")));
               (str "elevenlabs_api_key", JStr (strip (eleven_key dlg)));
               (str "tts_voice", JStr (strip (voice dlg)));
               (str "sound_pack", JStr (sound_pack_combo dlg));
               (str "system_tts_backend", JStr (system_tts_mode dlg))])
            = dict_get k cfg).
  { intros k Hk. apply dict_update_other. exact Hk. }
  split; [|split; [|split; [|split; [|split; [|split; [|split; [|split; [|split;
    [|split]]]]]]]]].
  - exists (str_or (strip (aws_region dlg)) (str "us-east-1")).
    split; [apply dict_update_entry; [exact Hnd | simpl; tauto]|].
    unfold str_or. destruct (strip (aws_region dlg)); repeat split;
      congruence || discriminate.
  - apply dict_update_entry; [exact Hnd | simpl; tauto].
  - apply dict_update_entry; [exact Hnd | simpl; tauto].
  - exact Hother.
  - apply dict_update_entry; [exact Hnd | simpl; tauto].
  - apply dict_update_entry; [exact Hnd | simpl; tauto].
  - apply dict_update_entry; [exact Hnd | simpl; tauto].
  - apply dict_update_entry; [exact Hnd | simpl; tauto].
  - apply dict_update_entry; [exact Hnd | simpl; tauto].
  - apply dict_update_entry; [exact Hnd | simpl; tauto].
  - split.
    + intros k v Hg Hk. rewrite <- (Hother k Hk). exact Hg.
    + intros k Hk. unfold dialog_keys in Hk. cbn [In] in Hk.
      destruct Hk as [<-|[<-|[<-|[<-|[<-|[<-|[<-|[<-|[<-|[]]]]]]]]]];
        eexists; (apply dict_update_entry; [exact Hnd | simpl; tauto]).
Qed.

Lemma get_updated_config_fields_witness :
  let dlg := {| openai_key := str " sk-abc "; gcloud_key := str "g-key ";
                aws_key := str " AKIA"; aws_secret := str " s3cr3t ";
                aws_region := str "   "; eleven_key := str "el-key ";
                voice := []; sound_pack_combo := str "Default";
                system_tts_mode := str "SAPI5 (Windows)" |} in
  dict_get (str "aws_region") (get_updated_config DEFAULT_CONFIG dlg)
  = Some (JStr (str "us-east-1"))
  /\ dict_get (str "chat_mode") (get_updated_config DEFAULT_CONFIG dlg)
     = dict_get (str "chat_mode") DEFAULT_CONFIG
  /\ dict_get (str "aws_secret_access_key") (get_updated_config DEFAULT_CONFIG dlg)
     = Some (JStr (str "s3cr3t")).
Proof.
  intros dlg.
  destruct (get_updated_config_fields DEFAULT_CONFIG dlg)
    as [[r [Hr [_ [Hblank _]]]] [_ [_ [Hother [_ [_ [Hsecret _]]]]]]].
  split; [rewrite Hr, (Hblank eq_refl); reflexivity|].
  split; [|exact Hsecret].
  apply Hother. simpl. intuition discriminate.
Defined.

(* ===================================================================== *)
(** * ChatReader: connection handles and the fallback stream *)
(* ===================================================================== *)

Lemma terminate_count_app tr1 tr2 :
  terminate_count (tr1 ++ tr2) = terminate_count tr1 + terminate_count tr2.
Proof.
  unfold terminate_count. rewrite flat_map_app, length_app. reflexivity.
Qed.

Lemma items_no_terminate t items :
  terminate_count
    (at_time t (map (fun c => Emit (message_received (normalize_item c))) items)) = 0.
Proof.
  induction items as [|c items IH]; cbn; [reflexivity | exact IH].
Qed.

Lemma step_handles w stop st t tr :
  pytchat w = true ->
  handles_accounted w st tr ->
  handles_accounted w (fst (fst (step w stop (st, t)))) (tr ++ snd (step w stop (st, t))).
Proof.
  intros Hp Hinv. unfold handles_accounted in *.
  destruct st as [|k|k chat j|k|d j|]; cbn [step].
  - subst tr. rewrite Hp. cbn. auto.
  - destruct Hinv as [-> Ht].
    destruct (is_set stop t); [cbn [fst snd]; rewrite app_nil_r || idtac|].
    + cbn [fst snd]. rewrite connect_times_app, terminate_count_app, length_app.
      cbn. rewrite !Nat.add_0_r. exact Ht.
    + destruct (create w (length (connect_times tr))) as [chat|e] eqn:Hc;
        cbn [fst snd]; rewrite connect_times_app, terminate_count_app, length_app;
        cbn; rewrite Nat.add_0_r, Nat.add_1_r; (split; [reflexivity|]);
        cbn [opened]; rewrite Hc, <- Ht; lia.
  - destruct Hinv as [-> Ht].
    assert (Hfail : forall a b,
               handles_accounted w (ReconnectWait (length (connect_times tr)))
                 (tr ++ at_time t [Emit a; Terminate])
               /\ handles_accounted w Stopped (tr ++ at_time t [Terminate; Emit b])).
    { intros a b. unfold handles_accounted.
      rewrite !connect_times_app, !terminate_count_app, !length_app. cbn.
      rewrite Nat.add_0_r. split; [split; [reflexivity|]|]; lia. }
    unfold handles_accounted in Hfail.
    destruct (is_alive chat j) as [[|]|e]; cbn [andb].
    + destruct (is_set stop t); cbn [negb fst snd]; [apply (Hfail (error_message []))|].
      destruct (get_items chat j) as [items|e]; cbn [fst snd];
        [|apply (Hfail _ stopped)].
      rewrite connect_times_app, terminate_count_app, !at_time_app,
        connect_times_app, terminate_count_app, items_no_terminate.
      destruct (items_no_connect t items) as [-> _]. cbn.
      rewrite app_nil_r, !Nat.add_0_r. auto.
    + destruct (is_set stop t); cbn [fst snd];
        [apply (Hfail (error_message [])) | apply (Hfail _ stopped)].
    + cbn [fst snd]. apply (Hfail _ stopped).
  - destruct Hinv as [-> Ht].
    destruct (is_set stop t); cbn [fst snd];
      rewrite ?app_nil_r, ?connect_times_app, ?terminate_count_app, ?length_app;
      cbn; rewrite ?Nat.add_0_r; auto.
  - contradiction.
  - cbn. rewrite app_nil_r. exact Hinv.
Qed.

Lemma run_steps_handles w stop n :
  pytchat w = true ->
  forall c tr,
    handles_accounted w (fst c) tr ->
    handles_accounted w (fst (fst (run_steps w stop n c)))
      (tr ++ snd (run_steps w stop n c)).
Proof.
  intros Hp. induction n as [|n IH]; intros [st t] tr Hinv.
  - cbn. rewrite app_nil_r. exact Hinv.
  - rewrite run_steps_S. cbn [fst snd]. rewrite app_assoc.
    apply IH. destruct (step w stop (st, t)) as [[st' t'] acts] eqn:E.
    pose proof (step_handles w stop st t tr Hp Hinv) as H.
    rewrite E in H. exact H.
Qed.

(** X22. On the primary backend no connection is left open: at every
    point of a run, whatever the backend does and whenever [stop()] is
    called, the number of [terminate()] calls equals the number of
    connections that [pytchat.create] returned, except while streaming,
    when exactly the current connection is still open.  In particular
    every opened connection has been terminated when the thread stops. *)
Theorem every_connection_is_terminated (w : World) (stop : option N) (fuel : nat) :
  pytchat w = true ->
  let st := fst (config_after w stop fuel) in
  let tr := snd (run w stop fuel) in
  let attempts := length (connect_times tr) in
  ((forall k chat j, st <> Streaming k chat j) ->
   terminate_count tr = opened w attempts)
  /\ (forall k chat j, st = Streaming k chat j ->
      S (terminate_count tr) = opened w attempts)
  /\ (st = Stopped -> terminate_count tr = opened w attempts).
Proof.
  intros Hp st tr attempts. subst st tr attempts. unfold config_after, run.
  pose proof (run_steps_handles w stop fuel Hp (Idle, 0%N) [] eq_refl) as H.
  cbn [app fst] in H. unfold handles_accounted in H.
  destruct (run_steps w stop fuel (Idle, 0%N)) as [[st t] tr]. cbn [fst snd] in *.
  destruct st as [|k|k chat j|k|d j|].
  - subst tr. cbn. repeat split; auto; discriminate.
  - destruct H as [_ H]. repeat split; auto; discriminate.
  - destruct H as [_ H]. split; [|split].
    + intros Hns. exfalso. exact (Hns k chat j eq_refl).
    + intros; exact H.
    + discriminate.
  - destruct H as [_ H]. repeat split; auto; discriminate.
  - contradiction.
  - repeat split; auto; discriminate.
Qed.

Lemma every_connection_is_terminated_witness :
  terminate_count (snd (run world_live (Some 1200%N) 6)) = 1
  /\ opened world_live (length (connect_times (snd (run world_live (Some 1200%N) 6)))) = 1.
Proof.
  split; [reflexivity|].
  symmetry.
  apply (every_connection_is_terminated world_live (Some 1200%N) 6 eq_refl).
  reflexivity.
Defined.

(** X23. While the stream goes on and no stop is requested, the fallback
    loop hands on exactly the items the backend reports as text messages,
    in order; every other kind of item (a paid message, a sticker, a
    membership notice) is silently dropped. *)
Theorem fallback_forwards_text_messages (w : World) (stop : option N)
    (d : nat -> DNext) (waits : nat -> N) (raws : nat -> RawMsg) (m : nat) :
  forall j t,
    (forall i, j <= i < j + m -> d i = DMsg (waits i) (raws i)) ->
    is_set stop (t + total_wait waits j m)%N = false ->
    exists tr,
      run_steps w stop m (Downloading d j, t)
      = ((Downloading d (j + m), (t + total_wait waits j m)%N), tr)
      /\ received tr
         = map normalize_raw (filter is_text_message (map raws (seq j m))).
Proof.
  induction m as [|m IH]; intros j t Hd Hns.
  - exists []. cbn. rewrite Nat.add_0_r, N.add_0_r. auto.
  - cbn [total_wait] in Hns.
    assert (Hnow : is_set stop (t + waits j)%N = false).
    { apply (is_set_earlier stop _ (t + (waits j + total_wait waits (S j) m))%N);
        [lia | exact Hns]. }
    destruct (IH (S j) (t + waits j)%N) as [tr [E Hr]].
    { intros i Hi. apply Hd. lia. }
    { rewrite <- N.add_assoc. exact Hns. }
    rewrite run_steps_S. cbn [step]. rewrite (Hd j ltac:(lia)), Hnow.
    cbn [fst snd]. rewrite E. cbn [fst snd total_wait]. eexists. split.
    + f_equal. f_equal; [f_equal; lia | lia].
    + rewrite received_app, Hr. cbn [seq map filter]. unfold is_text_message at 2.
      destruct (str_eqb (message_type (raws j)) (str "text_message")); reflexivity.
Qed.

Lemma fallback_forwards_text_messages_witness :
  let raw := fun kind => {| message_type := kind;
                            raw_author_name := Some (str "viewer");
                            raw_message := Some (str "hello") |} in
  let raws := fun i => match i with
                       | 1 => raw (str "paid_message")
                       | _ => raw (str "text_message")
                       end in
  let d := fun i => DMsg 300 (raws i) in
  exists tr,
    run_steps world_fallback_live None 3 (Downloading d 0, 0%N)
    = ((Downloading d 3, 900%N), tr)
    /\ received tr = [normalize_raw (raw (str "text_message"));
                      normalize_raw (raw (str "text_message"))].
Proof.
  intros raw raws d.
  apply (fallback_forwards_text_messages world_fallback_live None d
           (fun _ => 300%N) raws 3 0 0%N).
  - intros i Hi. reflexivity.
  - reflexivity.
Defined.

(* ===================================================================== *)
(** * MainWindow: narration order and sounds *)
(* ===================================================================== *)

Lemma log_events_cons op tr log : log_events ((op, tr) :: log) = tr ++ log_events log.
Proof. reflexivity. Qed.

Lemma narrations_app tr1 tr2 : narrations (tr1 ++ tr2) = narrations tr1 ++ narrations tr2.
Proof. apply flat_map_app. Qed.

Lemma handler_standard_narration op w :
  chat_mode (op_widgets op) = CHAT_MODE_STANDARD -> is_quick_summary op = false ->
  narrations (snd (handler op w)) = map chat_line (appended [op]).
Proof.
  intros Hmode Hq.
  destruct op as [ui msg | ui env | ui env now now']; cbn [op_widgets] in Hmode;
    [| discriminate Hq |]; cbn [handler].
  - unfold _on_message. rewrite Hmode, str_eqb_refl.
    destruct (str_eqb (type msg) (str "superChat") || str_eqb (type msg) (str "superSticker"));
      [|destruct (is_moderator msg); [|destruct (is_verified msg)]]; reflexivity.
  - rewrite maybe_do_summary_idle; [reflexivity|].
    intros [H _]. rewrite Hmode in H. discriminate H.
Qed.

(** X24. In standard mode the messages are narrated one by one in arrival
    order: over any sequence of incoming messages and timer checks, the
    texts handed to the speech output are exactly the [author: text] lines
    of the messages received, each once, in the order received. *)
Theorem standard_mode_narrates_in_order (ops : list Op) (w : MainWindow) :
  (forall op, In op ops ->
     chat_mode (op_widgets op) = CHAT_MODE_STANDARD /\ is_quick_summary op = false) ->
  narrations (log_events (snd (run_ops ops w)))
  = map (fun m => author m ++ str ": " ++ text m) (appended ops).
Proof.
  revert w. induction ops as [|op ops IH]; intros w Hall; [reflexivity|].
  destruct (Hall op (or_introl eq_refl)) as [Hmode Hq].
  pose proof (handler_standard_narration op w Hmode Hq) as Hn.
  cbn [run_ops]. destruct (handler op w) as [[r w1] tr]. cbn [snd] in Hn.
  specialize (IH w1 (fun o Ho => Hall o (or_intror Ho))).
  destruct (run_ops ops w1) as [w2 log]. cbn [snd] in *.
  rewrite (appended_cons op ops), map_app.
  rewrite log_events_cons, narrations_app, Hn, IH.
  reflexivity.
Qed.

Lemma standard_mode_narrates_in_order_witness :
  let ui := {| chat_mode := str "Standard (read messages)";
               summary_interval := 1; quick_summary_count_sb := 50 |} in
  let env := {| openai := false; openai_api_key := []; completion := Ok None |} in
  let m := fun a => {| author := a; text := str "hi"; type := str "textMessage";
                       is_moderator := false; is_verified := false |} in
  let w := {| pending_messages := []; last_summary_ts := 0%Q; reader := None |} in
  let ops := [OnMessage ui (m (str "a")); OnTimer ui env 600%Q 600%Q;
              OnMessage ui (m (str "b"))] in
  narrations (log_events (snd (run_ops ops w))) = [str "a: hi"; str "b: hi"].
Proof.
  intros ui env m w ops.
  apply (standard_mode_narrates_in_order ops w).
  intros op Hin. simpl in Hin.
  destruct Hin as [<-|[<-|[<-|[]]]]; split; reflexivity.
Defined.

Lemma sounds_app tr1 tr2 : sounds (tr1 ++ tr2) = sounds tr1 ++ sounds tr2.
Proof. apply flat_map_app. Qed.

Lemma summarize_no_sound {S} env messages (s : S) :
  sounds (snd (summarize env messages s)) = [].
Proof.
  destruct (summarize_run env messages s) as [out [tr [E [Htr _]]]].
  rewrite E. cbn [snd]. destruct Htr as [->| ->]; reflexivity.
Qed.

Lemma handler_sounds op w :
  forall n, In n (sounds (snd (handler op w))) -> In n SOUND_FILES.
Proof.
  intros n.
  destruct op as [ui msg | ui env | ui env now now']; cbn [handler].
  - unfold _on_message.
    destruct (str_eqb (chat_mode ui) CHAT_MODE_STANDARD);
      [destruct (str_eqb (type msg) (str "superChat") || str_eqb (type msg) (str "superSticker"));
       [|destruct (is_moderator msg); [|destruct (is_verified msg)]]|];
      cbn; intros H; try contradiction; destruct H as [<-|[]];
      unfold SOUND_FILES; simpl; tauto.
  - unfold _on_quick_summary. unfold bind at 1. unfold get at 1. cbn iota beta.
    destruct (pending_messages w) as [|m ms]; [cbn; tauto|].
    destruct (summarize_run env (slice_from (- quick_summary_count_sb ui) (m :: ms)) w)
      as [out [tr [E [Htr _]]]].
    unfold bind, emit, try_except, ret. rewrite E. cbn.
    rewrite sounds_app. destruct Htr as [->| ->]; cbn;
      intros [<-|[]]; unfold SOUND_FILES; simpl; tauto.
  - assert (Hdec : (chat_mode ui = CHAT_MODE_SUMMARIES /\ due ui now w
                    /\ pending_messages w <> [])
                   \/ ~ (chat_mode ui = CHAT_MODE_SUMMARIES /\ due ui now w
                         /\ pending_messages w <> [])).
    { destruct (str_eqb (chat_mode ui) CHAT_MODE_SUMMARIES) eqn:Hm.
      - apply str_eqb_eq in Hm. destruct (due_dec ui now w) as [Hd|Hd]; [|right; tauto].
        destruct (pending_messages w); [right; intros [_ [_ H]]; congruence|].
        left. repeat split; [exact Hm | exact Hd | discriminate].
      - right. intros [Hm' _]. apply str_eqb_eq in Hm'. congruence. }
    destruct Hdec as [[Hm [Hd Hne]]|Hno].
    + destruct (maybe_do_summary_fires ui env now now' w Hm Hd Hne)
        as [summary [calls [E Hc]]].
      rewrite E. cbn [snd]. destruct Hc as [->| ->]; cbn;
        intros [<-|[]]; unfold SOUND_FILES; simpl; tauto.
    + rewrite maybe_do_summary_idle by exact Hno. cbn. tauto.
Qed.

(** X25. Every sound a handler asks the sound manager to play is one of
    the eight names a sound pack can provide: this holds for incoming
    messages, quick summaries, timer checks, start requests and error
    notices, whatever their inputs. *)
Theorem handlers_play_known_sounds (op : Op) (w : MainWindow)
    (url_text err : pystr) (now : Q) :
  (forall n, In n (sounds (snd (handler op w))) -> In n SOUND_FILES)
  /\ (forall n, In n (sounds (snd (_on_start url_text now w))) -> In n SOUND_FILES)
  /\ (forall n, In n (ui_sounds (_on_error err)) -> In n SOUND_FILES).
Proof.
  split; [apply handler_sounds|]. split.
  - intros n. unfold _on_start.
    destruct (extract_youtube_video_id (strip url_text)); cbn; [|tauto].
    intros [<-|[]]. unfold SOUND_FILES. simpl. tauto.
  - intros n. unfold _on_error.
    destruct (contains _ _ || contains _ _); cbn;
      intros [<-|[]]; unfold SOUND_FILES; simpl; tauto.
Qed.

Lemma handlers_play_known_sounds_witness :
  let ui := {| chat_mode := str "Standard (read messages)";
               summary_interval := 1; quick_summary_count_sb := 50 |} in
  let msg := {| author := str "a"; text := str "hi"; type := str "superSticker";
                is_moderator := false; is_verified := false |} in
  let w := {| pending_messages := []; last_summary_ts := 0%Q; reader := None |} in
  sounds (snd (handler (OnMessage ui msg) w)) = [str "donation"]
  /\ In (str "donation") SOUND_FILES.
Proof.
  intros ui msg w. split; [reflexivity|].
  apply (proj1 (handlers_play_known_sounds (OnMessage ui msg) w [] [] 0%Q)).
  left. reflexivity.
Defined.
